(** * Portfolio (src/App.jsx): the stateful hooks of the page

    A shallow embedding of the four pieces of state-carrying code in
    [src/App.jsx]:

    - [useTheme] / [App]         (lines 11-14, 691-693): the dark/light flag;
    - [useReveal] / [Reveal]     (lines 17-47): the scroll-reveal flag;
    - [Hero]'s typewriter effect (lines 153-176);
    - [Contact.handleSubmit]     (lines 544-553).

    The host (React's hooks, the browser's timers and IntersectionObserver)
    is modelled by explicit state passing:

    - a [useState] cell is a record field, a setter is a function on the
      world; the setter calls of one callback are committed together, and a
      setter called after the component was unmounted leaves the cell as it
      is (the call is still recorded, as a spy on the setter would);
    - [useEffect(f, deps)] runs [f] at mount and again after every commit
      that changed one of [deps], running the previous cleanup first; the
      last cleanup runs at unmount;
    - [setTimeout] appends a timer to a queue and returns its id,
      [clearTimeout] removes the timer with that id if it is still there,
      and the host fires the pending timer with the earliest due time. *)

From Stdlib Require Import ZArith List String Ascii Bool Lia QArith.
From Stdlib Require Import DecimalString DecimalN DecimalPos.
Import ListNotations.

Open Scope Z_scope.

(* ------------------------------------------------------------------ *)
(** ** JavaScript values used by the page *)

Module JS.

(** [s.length] *)
Definition length (s : string) : Z := Z.of_nat (String.length s).

(** [s.slice(0, e)]: a negative [e] counts from the end, and the result is
    clamped to the string. *)
Definition slice0 (s : string) (e : Z) : string :=
  let len := length s in
  let e' := if e <? 0 then Z.max (len + e) 0 else Z.min e len in
  String.substring 0 (Z.to_nat e') s.

(** [a[i]]: [None] is [undefined]. *)
Definition index {A : Type} (a : list A) (i : Z) : option A :=
  if i <? 0 then None else nth_error a (Z.to_nat i).

(** [a.length] *)
Definition alength {A : Type} (a : list A) : Z := Z.of_nat (List.length a).

(** [x % y] on integers: the sign follows the dividend. *)
Definition rem (x y : Z) : Z := Z.rem x y.

(** [Number.MAX_SAFE_INTEGER], 2^53 - 1: up to it, in absolute value, every
    integer is a number of JavaScript and is printed with all its digits. *)
Definition max_safe_integer : Z := 9007199254740991.

Definition safe (n : Z) : bool := Z.abs n <=? max_safe_integer.

(** [`${n}`] for a safe integer [n]: its decimal digits. Beyond the safe
    integers JavaScript rounds the digits and, from 1e21 on, prints an
    exponent; those numbers are not modelled, and every statement below
    that prints a number it does not fix bounds it. *)
Definition show (n : Z) : string := NilZero.string_of_int (Z.to_int n).

End JS.

(* ------------------------------------------------------------------ *)
(** ** The browser's timer queue *)

Module Timers.

Section Queue.
Variable C : Type.     (* the callbacks the page registers *)

Record timer : Type := { tid : nat; due : Z; cb : C }.

Record t : Type := { now : Z; nextId : nat; pending : list timer }.

Definition empty : t := {| now := 0; nextId := 1; pending := [] |}.

(** [setTimeout(c, delay)]: returns the new timer's id. *)
Definition setTimeout (c : C) (delay : Z) (q : t) : nat * t :=
  (nextId q,
   {| now := now q;
      nextId := S (nextId q);
      pending := pending q ++ [ {| tid := nextId q; due := now q + delay; cb := c |} ] |}).

(** [clearTimeout(id)]: no effect when no such timer is pending. *)
Definition clearTimeout (id : nat) (q : t) : t :=
  {| now := now q;
     nextId := nextId q;
     pending := filter (fun x => negb (Nat.eqb (tid x) id)) (pending q) |}.

(** The pending timer that fires next: the earliest due time, and among
    equal due times the one registered first. *)
Fixpoint earliest (l : list timer) : option timer :=
  match l with
  | [] => None
  | x :: r =>
      match earliest r with
      | Some y => if due y <? due x then Some y else Some x
      | None => Some x
      end
  end.

(** The host takes the next timer off the queue; the clock moves to its
    due time. *)
Definition pop (q : t) : option (timer * t) :=
  match earliest (pending q) with
  | None => None
  | Some x =>
      Some (x, {| now := Z.max (now q) (due x);
                  nextId := nextId q;
                  pending := filter (fun y => negb (Nat.eqb (tid y) (tid x))) (pending q) |})
  end.
End Queue.

Arguments tid {C} _.
Arguments due {C} _.
Arguments cb {C} _.
Arguments now {C} _.
Arguments nextId {C} _.
Arguments pending {C} _.
Arguments empty {C}.
Arguments setTimeout {C} _ _ _.
Arguments clearTimeout {C} _ _.
Arguments earliest {C} _.
Arguments pop {C} _.

End Timers.

(* ------------------------------------------------------------------ *)
(** ** Hero: the typewriter effect (App.jsx 153-176) *)

Module Typewriter.

(** The four [useState] cells of [Hero]. *)
Record Hooks : Type :=
  { typed : string; roleIdx : Z; charIdx : Z; deleting : bool }.

(** What the effect's timer callback captured from the render it was
    created in: [current = roles[roleIdx]], [charIdx] and [deleting]. *)
Record Closure : Type :=
  { current : option string; c_charIdx : Z; c_deleting : bool }.

(** The two callbacks handed to [setTimeout]: the effect's tick, and the
    nested [() => setDeleting(true)]. *)
Inductive Callback : Type :=
| Tick (k : Closure)
| Pause.

(** A record of every setter call, in order. *)
Inductive SetterCall : Type :=
| SetTyped (s : string)
| SetCharIdx
| SetDeleting (b : bool)
| SetRoleIdx.

Record World : Type :=
  { hooks : Hooks;
    mounted : bool;
    effectTimer : option nat;       (* [timeout] of the latest effect run *)
    host : Timers.t Callback;
    calls : list SetterCall;
    uncaught : nat }.               (* TypeErrors thrown by callbacks *)

Definition with_hooks (f : Hooks -> Hooks) (c : SetterCall) (w : World) : World :=
  {| hooks := if mounted w then f (hooks w) else hooks w;
     mounted := mounted w;
     effectTimer := effectTimer w;
     host := host w;
     calls := calls w ++ [c];
     uncaught := uncaught w |}.

Definition with_host (q : Timers.t Callback) (w : World) : World :=
  {| hooks := hooks w; mounted := mounted w; effectTimer := effectTimer w;
     host := q; calls := calls w; uncaught := uncaught w |}.

Definition setTyped (s : string) : World -> World :=
  with_hooks (fun h => {| typed := s; roleIdx := roleIdx h;
                          charIdx := charIdx h; deleting := deleting h |})
             (SetTyped s).

Definition setCharIdx (f : Z -> Z) : World -> World :=
  with_hooks (fun h => {| typed := typed h; roleIdx := roleIdx h;
                          charIdx := f (charIdx h); deleting := deleting h |})
             SetCharIdx.

Definition setDeleting (b : bool) : World -> World :=
  with_hooks (fun h => {| typed := typed h; roleIdx := roleIdx h;
                          charIdx := charIdx h; deleting := b |})
             (SetDeleting b).

Definition setRoleIdx (f : Z -> Z) : World -> World :=
  with_hooks (fun h => {| typed := typed h; roleIdx := f (roleIdx h);
                          charIdx := charIdx h; deleting := deleting h |})
             SetRoleIdx.

(** An exception escaping a timer callback: nothing is committed. *)
Definition throw (w : World) : World :=
  {| hooks := hooks w; mounted := mounted w; effectTimer := effectTimer w;
     host := host w; calls := calls w; uncaught := S (uncaught w) |}.

(** The nested [setTimeout(() => setDeleting(true), 1800)]: the id it
    returns is dropped. *)
Definition schedulePause (w : World) : World :=
  with_host (snd (Timers.setTimeout Pause 1800 (host w))) w.

Definition init : Hooks :=
  {| typed := ""; roleIdx := 0; charIdx := 0; deleting := false |}.

Section Roles.
Variable roles : list string.

(** The [else] branch: [setDeleting(false); setRoleIdx(i => (i + 1) % roles.length)].
    (For an empty list JavaScript's [%] gives NaN; the branch is not
    reached then, the first tick throws before.) *)
Definition nextRole (w : World) : World :=
  setRoleIdx (fun i => JS.rem (i + 1) (JS.alength roles)) (setDeleting false w).

(** The body of the effect's timer callback, lines 162-173. With
    [current] undefined, reading [current.length] or calling
    [current.slice] throws; [&&] evaluates its right operand only when
    the left one is true. *)
Definition tick (k : Closure) (w : World) : World :=
  let ci := c_charIdx k in
  let d := c_deleting k in
  match current k with
  | Some cur =>
      if negb d && (ci <? JS.length cur) then
        setCharIdx (fun c => c + 1) (setTyped (JS.slice0 cur (ci + 1)) w)
      else if negb d && (ci =? JS.length cur) then
        schedulePause w
      else if d && (0 <? ci) then
        setCharIdx (fun c => c - 1) (setTyped (JS.slice0 cur (ci - 1)) w)
      else
        nextRole w
  | None =>
      if negb d then throw w
      else if 0 <? ci then throw w
      else nextRole w
  end.

Definition closure (h : Hooks) : Closure :=
  {| current := JS.index roles (roleIdx h);
     c_charIdx := charIdx h;
     c_deleting := deleting h |}.

(** [deleting ? 60 : 100] *)
Definition delay (h : Hooks) : Z := if deleting h then 60 else 100.

(** One run of the effect, lines 160-161 and 174. *)
Definition effect (w : World) : World :=
  let r := Timers.setTimeout (Tick (closure (hooks w))) (delay (hooks w)) (host w) in
  {| hooks := hooks w; mounted := mounted w; effectTimer := Some (fst r);
     host := snd r; calls := calls w; uncaught := uncaught w |}.

(** The effect's cleanup, line 175: [clearTimeout(timeout)]. *)
Definition cleanup (w : World) : World :=
  match effectTimer w with
  | Some id => with_host (Timers.clearTimeout id (host w)) w
  | None => w
  end.

(** The dependency array [[charIdx, deleting, roleIdx]], line 176. *)
Definition deps_eqb (a b : Hooks) : bool :=
  (charIdx a =? charIdx b) && Bool.eqb (deleting a) (deleting b)
  && (roleIdx a =? roleIdx b).

(** The commit after a callback: when a dependency changed, the old
    cleanup runs and then the effect. *)
Definition commit (old : Hooks) (w : World) : World :=
  if mounted w && negb (deps_eqb old (hooks w)) then effect (cleanup w) else w.

Definition mount : World :=
  effect {| hooks := init; mounted := true; effectTimer := None;
            host := Timers.empty; calls := []; uncaught := 0 |}.

Definition unmount (w : World) : World :=
  if mounted w then
    let w' := cleanup w in
    {| hooks := hooks w'; mounted := false; effectTimer := effectTimer w';
       host := host w'; calls := calls w'; uncaught := uncaught w' |}
  else w.

Definition fire (c : Callback) (w : World) : World :=
  commit (hooks w)
    match c with
    | Tick k => tick k w
    | Pause => setDeleting true w
    end.

(** The host fires the next pending timer; [None] when none is pending. *)
Definition step (w : World) : option World :=
  match Timers.pop (host w) with
  | None => None
  | Some (x, q) => Some (fire (Timers.cb x) (with_host q w))
  end.

(** [n] timer firings in a row. *)
Fixpoint run (n : nat) (w : World) : option World :=
  match n with
  | O => Some w
  | S m => match step w with Some w' => run m w' | None => None end
  end.

(** What can happen to a Hero: a timer fires, or it is unmounted. *)
Inductive Event : Type := Fire | Unmount.

Definition apply (e : Event) (w : World) : World :=
  match e with
  | Fire => match step w with Some w' => w' | None => w end
  | Unmount => unmount w
  end.

Definition exec (evs : list Event) (w : World) : World :=
  fold_left (fun w e => apply e w) evs w.

End Roles.

(** The role list of the page, line 154. *)
Definition page_roles : list string :=
  ["Business Analyst"; "Data Analyst"; "Analytics Consultant"]%string.

End Typewriter.

(* ------------------------------------------------------------------ *)
(** ** useReveal and Reveal (App.jsx 17-47) *)

Module Reveal.

(** A DOM element, by identity. *)
Definition Element : Type := nat.

(** What the callback reads of an [IntersectionObserverEntry]. The host
    decides both fields from the region's position and the observer's
    threshold; the hook reads [isIntersecting] only. *)
Record Entry : Type := { isIntersecting : bool; intersectionRatio : Q }.

Record Observer : Type := { threshold : Q; targets : list Element }.

(** [new IntersectionObserver(cb, { threshold })] *)
Definition newObserver (th : Q) : Observer := {| threshold := th; targets := [] |}.

(** [obs.observe(el)] *)
Definition observe (el : Element) (o : Observer) : Observer :=
  {| threshold := threshold o;
     targets := if existsb (Nat.eqb el) (targets o) then targets o
                else targets o ++ [el] |}.

(** [obs.disconnect()]: the observer stops watching all of its targets. *)
Definition disconnect (o : Observer) : Observer :=
  {| threshold := threshold o; targets := [] |}.

Definition observing (o : Observer) : bool :=
  match targets o with [] => false | _ :: _ => true end.

Record World : Type :=
  { visible : bool;                  (* the [useState(false)] cell *)
    ref_current : option Element;    (* [ref.current] when the effect runs *)
    obs : Observer;
    mounted : bool;
    disconnects : nat }.             (* calls of [obs.disconnect()] so far *)

Definition setVisible (b : bool) (w : World) : World :=
  {| visible := if mounted w then b else visible w;
     ref_current := ref_current w; obs := obs w;
     mounted := mounted w; disconnects := disconnects w |}.

Definition obs_disconnect (w : World) : World :=
  {| visible := visible w; ref_current := ref_current w;
     obs := disconnect (obs w);
     mounted := mounted w; disconnects := S (disconnects w) |}.

(** The effect of [useReveal], lines 21-25, on the freshly created state. *)
Definition mount (r : option Element) : World :=
  let o := newObserver 0.12 in
  {| visible := false;
     ref_current := r;
     obs := match r with Some el => observe el o | None => o end;
     mounted := true;
     disconnects := 0 |}.

(** The observer's callback, line 22; [e] is the first entry. *)
Definition callback (e : Entry) (w : World) : World :=
  if isIntersecting e then obs_disconnect (setVisible true w) else w.

(** The effect's cleanup, line 26, run once when the component goes. *)
Definition unmount (w : World) : World :=
  if mounted w then
    let w' := obs_disconnect w in
    {| visible := visible w'; ref_current := ref_current w'; obs := obs w';
       mounted := false; disconnects := disconnects w' |}
  else w.

(** The host: it reports a non-empty batch of entries to an observer that
    still has a target, and unmounts the component. *)
Inductive Event : Type :=
| Notify (e : Entry) (rest : list Entry)
| Unmount.

Definition apply (ev : Event) (w : World) : World :=
  match ev with
  | Notify e _ => if observing (obs w) then callback e w else w
  | Unmount => unmount w
  end.

Definition exec (evs : list Event) (w : World) : World :=
  fold_left (fun w ev => apply ev w) evs w.

(** The value of [visible] before the first event and after each one. *)
Fixpoint trace (evs : list Event) (w : World) : list bool :=
  visible w :: match evs with
               | [] => []
               | ev :: r => trace r (apply ev w)
               end.

(** How often a list of flags goes from [a] to [b]. *)
Fixpoint changes (a b : bool) (l : list bool) : nat :=
  match l with
  | x :: ((y :: _) as r) =>
      ((if Bool.eqb x a && Bool.eqb y b then 1 else 0) + changes a b r)%nat
  | _ => O
  end.

Definition reports_intersection (ev : Event) : bool :=
  match ev with
  | Notify e _ => isIntersecting e
  | Unmount => false
  end.


(** The events up to the unmount. *)
Fixpoint lifetime (evs : list Event) : list Event :=
  match evs with
  | [] => []
  | Unmount :: _ => []
  | ev :: r => ev :: lifetime r
  end.

(** What holds of every state the hook reaches: a visible or unmounted
    component watches nothing, and a mounted one has disconnected once if
    it is visible and never otherwise. *)
Definition settled (w : World) : Prop :=
  (visible w = true -> targets (obs w) = [])
  /\ (mounted w = false -> targets (obs w) = [])
  /\ (mounted w = true -> disconnects w = if visible w then 1%nat else O).

(** The inline style of the wrapper, lines 38-42. *)
Record Style : Type :=
  { opacity : Z; transform : string; transition : string }.

Definition Reveal_style (visible : bool) (delay : Z) : Style :=
  {| opacity := if visible then 1 else 0;
     transform := if visible then "translateY(0)" else "translateY(32px)";
     transition := ("opacity 0.7s ease " ++ JS.show delay ++ "ms, transform 0.7s ease "
                      ++ JS.show delay ++ "ms")%string |}.

(** [Reveal]: the [delay] prop defaults to 0 when the caller gives none. *)
Definition Reveal (delay : option Z) (w : World) : Style :=
  Reveal_style (visible w) (match delay with Some d => d | None => 0 end).

(** Reading a CSS [<time>]: [Nms], [Ns] or [N.Fs], in milliseconds. *)
Fixpoint strip_suffix (suf s : string) : option string :=
  if String.eqb s suf then Some ""%string
  else match s with
       | EmptyString => None
       | String c r => option_map (String c) (strip_suffix suf r)
       end.

Fixpoint split_dot (s : string) : string * option string :=
  match s with
  | EmptyString => (EmptyString, None)
  | String c r =>
      if Ascii.eqb c "."%char then (EmptyString, Some r)
      else let p := split_dot r in (String c (fst p), snd p)
  end.

Definition digits (s : string) : option Z :=
  option_map (fun u => Z.of_N (N.of_uint u)) (NilZero.uint_of_string s).

Definition css_time_ms (tok : string) : option Z :=
  match strip_suffix "ms" tok with
  | Some n => digits n
  | None =>
      match strip_suffix "s" tok with
      | None => None
      | Some n =>
          match split_dot n with
          | (i, None) => option_map (fun x => x * 1000) (digits i)
          | (i, Some f) =>
              match digits i, digits (f ++ "000")%string with
              | Some x, Some y =>
                  Some (x * 1000 + y / 10 ^ Z.of_nat (String.length f))
              | _, _ => None
              end
          end
      end
  end.

End Reveal.

(* ------------------------------------------------------------------ *)
(** ** useTheme, the colour tokens and App (App.jsx 11-14, 50-73, 691-707) *)

Module Theme.

Record Palette : Type :=
  { bg : string; surface : string; card : string; border : string;
    accent : string; accentSoft : string; text : string; muted : string;
    grad : string }.

Definition T_dark : Palette :=
  {| bg := "#0a0a0f"; surface := "#12121a"; card := "#17172200";
     border := "#2a2a3a"; accent := "#f59e0b"; accentSoft := "#f59e0b22";
     text := "#e8e8f0"; muted := "#8888aa";
     grad := "linear-gradient(135deg,#f59e0b22 0%,transparent 60%)" |}.

Definition T_light : Palette :=
  {| bg := "#f5f4ef"; surface := "#ffffff"; card := "#ffffff";
     border := "#e0ddd5"; accent := "#c2770a"; accentSoft := "#c2770a18";
     text := "#1a1a2e"; muted := "#6b6b80";
     grad := "linear-gradient(135deg,#c2770a18 0%,transparent 60%)" |}.

(** [useState(true)], line 12. *)
Definition initial : bool := true.

(** [toggle: () => setDark((d) => !d)], line 13. *)
Definition toggle (dark : bool) : bool := negb dark.

(** [const c = dark ? T.dark : T.light], App line 693. *)
Definition App_c (dark : bool) : Palette := if dark then T_dark else T_light.

(** The same expression in [Nav], line 79, which is handed [dark] itself. *)
Definition Nav_c (dark : bool) : Palette := if dark then T_dark else T_light.

(** The props of the components [App] renders, lines 697-707. *)
Inductive Props : Type :=
| NoProps
| NavProps (dark : bool)
| HeroProps (c : Palette) (dark : bool)
| CProps (c : Palette).

Definition App (dark : bool) : list (string * Props) :=
  let c := App_c dark in
  [ ("GlobalStyles", NoProps); ("SEOMeta", NoProps);
    ("Nav", NavProps dark); ("Hero", HeroProps c dark);
    ("About", CProps c); ("Skills", CProps c); ("Projects", CProps c);
    ("Experience", CProps c); ("Contact", CProps c); ("Footer", CProps c) ]%string.

(** The palette a rendered component works with, if it has one. *)
Definition palette_of (p : Props) : option Palette :=
  match p with
  | NoProps => None
  | NavProps dark => Some (Nav_c dark)
  | HeroProps c _ => Some c
  | CProps c => Some c
  end.

End Theme.

(* ------------------------------------------------------------------ *)
(** ** Contact: the form and handleSubmit (App.jsx 544-553, 600-620) *)

Module Contact.

Record Form : Type := { name : string; email : string; message : string }.

Definition blank : Form := {| name := ""; email := ""; message := "" |}.

(** The one callback handed to [setTimeout]: [() => setSent(false)]. *)
Inductive Callback : Type := Unsent.

(** What leaves the page: the browser's own handling of a submit event
    that nobody prevented sends the form's fields to the form's action. *)
Inductive IO : Type := FormSubmission (name email message : string).

Record SubmitEvent : Type := { defaultPrevented : bool }.

Definition preventDefault (e : SubmitEvent) : SubmitEvent :=
  {| defaultPrevented := true |}.

Record World : Type :=
  { form : Form;                  (* [useState({ name, email, message })] *)
    sent : bool;                  (* [useState(false)] *)
    host : Timers.t Callback;
    io : list IO }.

Definition setSent (b : bool) (w : World) : World :=
  {| form := form w; sent := b; host := host w; io := io w |}.

Definition setForm (f : Form) (w : World) : World :=
  {| form := f; sent := sent w; host := host w; io := io w |}.

(** Lines 548-553. *)
Definition handleSubmit (e : SubmitEvent) (w : World) : SubmitEvent * World :=
  let e1 := preventDefault e in
  let w1 := setSent true w in
  let w2 := setForm {| name := ""; email := ""; message := "" |} w1 in
  let q := snd (Timers.setTimeout Unsent 4000 (host w2)) in
  (e1, {| form := form w2; sent := sent w2; host := q; io := io w2 |}).

(** The browser dispatches a submit event to [onSubmit]; unless the
    handler prevented it, the default action then sends the form. *)
Definition submit (w : World) : World :=
  let r := handleSubmit {| defaultPrevented := false |} w in
  if defaultPrevented (fst r) then snd r
  else {| form := form (snd r); sent := sent (snd r); host := host (snd r);
          io := io (snd r)
                ++ [FormSubmission (name (form w)) (email (form w)) (message (form w))] |}.

(** The [onChange] handlers of the three inputs, lines 603, 610, 618. *)
Inductive Field : Type := FName | FEmail | FMessage.

Definition onChange (fld : Field) (v : string) (w : World) : World :=
  let f := form w in
  setForm match fld with
          | FName => {| name := v; email := email f; message := message f |}
          | FEmail => {| name := name f; email := v; message := message f |}
          | FMessage => {| name := name f; email := email f; message := v |}
          end w.

Definition fire (c : Callback) (w : World) : World :=
  match c with Unsent => setSent false w end.

Definition step (w : World) : option World :=
  match Timers.pop (host w) with
  | None => None
  | Some (x, q) =>
      Some (fire (Timers.cb x)
              {| form := form w; sent := sent w; host := q; io := io w |})
  end.

End Contact.

(* ------------------------------------------------------------------ *)
(** ** The state of the whole page *)

Module Page.

Record State : Type :=
  { dark : bool;
    hero : Typewriter.World;
    reveals : list Reveal.World;
    contact : Contact.World }.

(** Submitting the contact form, seen from the page. *)
Definition submit (s : State) : State :=
  {| dark := dark s; hero := hero s; reveals := reveals s;
     contact := Contact.submit (contact s) |}.

(** The 4000ms timer of the contact form firing, seen from the page. *)
Definition contact_step (s : State) : option State :=
  match Contact.step (contact s) with
  | None => None
  | Some c => Some {| dark := dark s; hero := hero s; reveals := reveals s;
                      contact := c |}
  end.

End Page.


(* ------------------------------------------------------------------ *)
(** ** The states a Hero goes through *)

Module TypewriterStates.
Import Typewriter.

Section Roles.
Variable roles : list string.

(** Mounted, between two ticks: the timer of the latest effect run is the
    only pending one, it captured the current cells, and it is due
    [delay] after the present time. *)
Definition ticking (h : Hooks) (t : Z) (id nx : nat)
    (log : list SetterCall) (u : nat) : World :=
  {| hooks := h; mounted := true; effectTimer := Some id;
     host := {| Timers.now := t; Timers.nextId := nx;
                Timers.pending :=
                  [ {| Timers.tid := id; Timers.due := t + delay h;
                       Timers.cb := Tick (closure roles h) |} ] |};
     calls := log; uncaught := u |}.

(** Mounted, inside the pause: the effect's timer [id] has fired and the
    nested timer [pid] is the only pending one. *)
Definition pausing (h : Hooks) (t : Z) (id pid nx : nat)
    (log : list SetterCall) (u : nat) : World :=
  {| hooks := h; mounted := true; effectTimer := Some id;
     host := {| Timers.now := t; Timers.nextId := nx;
                Timers.pending :=
                  [ {| Timers.tid := pid; Timers.due := t + 1800;
                       Timers.cb := Pause |} ] |};
     calls := log; uncaught := u |}.

(** The cells agree with the role list: [roleIdx] points at a role,
    [charIdx] lies within it and [typed] is the slice up to [charIdx]. *)
Definition good (h : Hooks) : Prop :=
  exists cur, JS.index roles (roleIdx h) = Some cur
              /\ 0 <= charIdx h <= JS.length cur
              /\ typed h = JS.slice0 cur (charIdx h).

(** The states reachable from [mount]. *)
Inductive Inv : World -> Prop :=
| Inv_ticking h t id nx log u :
    good h -> Inv (ticking h t id nx log u)
| Inv_pausing h t id pid nx log u :
    good h -> deleting h = false -> Inv (pausing h t id pid nx log u)
| Inv_gone w :
    mounted w = false -> good (hooks w) -> Inv w.

(** About to type role [i] from its first character. *)
Definition start (i : Z) : Hooks :=
  {| typed := ""; roleIdx := i; charIdx := 0; deleting := false |}.

Definition ready (i : Z) (w : World) : Prop :=
  exists t id nx log u, w = ticking (start i) t id nx log u.

End Roles.

(** The four states of the animation, told apart by the cells and the
    current role. *)
Inductive Phase : Type := Typing | PausedFull | Deleting | PausedEmpty.

Definition phase (cur : string) (h : Hooks) : Phase :=
  if deleting h then (if 0 <? charIdx h then Deleting else PausedEmpty)
  else (if charIdx h <? JS.length cur then Typing else PausedFull).

(** The setter calls that change the displayed text. *)
Definition is_typing_call (c : SetterCall) : bool :=
  match c with
  | SetTyped _ | SetCharIdx => true
  | SetDeleting _ | SetRoleIdx => false
  end.

(** The time left until each pending timer fires, with its callback. *)
Definition outstanding (w : World) : list (Z * Callback) :=
  map (fun x => (Timers.due x - Timers.now (host w), Timers.cb x))
      (Timers.pending (host w)).

End TypewriterStates.

(* ------------------------------------------------------------------ *)
(** ** Nav: the scroll flag and the mobile menu (App.jsx 76-149) *)

Module Nav.

(** [x > y] on numbers. *)
Definition gt (x y : Q) : bool := negb (Qle_bool x y).

(** Functions are told apart by identity; the arrow function an effect
    creates is a new one, different from every function there is. *)
Definition fresh (l : list nat) : nat := S (list_max l).

(** [window.addEventListener("scroll", f)]: a listener that is registered
    already is not registered twice. *)
Definition addEventListener (f : nat) (l : list nat) : list nat :=
  if existsb (Nat.eqb f) l then l else l ++ [f].

(** [window.removeEventListener("scroll", f)] *)
Definition removeEventListener (f : nat) (l : list nat) : list nat :=
  filter (fun g => negb (Nat.eqb g f)) l.

Record World : Type :=
  { scrolled : bool;              (* [useState(false)], line 77 *)
    menuOpen : bool;              (* [useState(false)], line 78 *)
    mounted : bool;
    h : nat;                      (* the handler [h] of the effect, line 82 *)
    window : list nat }.          (* the scroll listeners of [window] *)

Definition setScrolled (b : bool) (w : World) : World :=
  {| scrolled := if mounted w then b else scrolled w; menuOpen := menuOpen w;
     mounted := mounted w; h := h w; window := window w |}.

Definition setMenuOpen (b : bool) (w : World) : World :=
  {| scrolled := scrolled w; menuOpen := if mounted w then b else menuOpen w;
     mounted := mounted w; h := h w; window := window w |}.

(** The effect, lines 81-85, on the fresh state; [others] are the scroll
    listeners the window has already. *)
Definition mount (others : list nat) : World :=
  let f := fresh others in
  {| scrolled := false; menuOpen := false; mounted := true; h := f;
     window := addEventListener f others |}.

(** The cleanup, line 84. *)
Definition unmount (w : World) : World :=
  if mounted w then
    {| scrolled := scrolled w; menuOpen := menuOpen w; mounted := false;
       h := h w; window := removeEventListener (h w) (window w) |}
  else w.

(** What happens to a Nav: the page is scrolled to [y] and the window tells
    its listeners; the hamburger button is pressed; a link of the mobile
    menu, which is rendered only while the menu is open, is pressed; the
    component goes. *)
Inductive Event : Type :=
| Scroll (y : Q)
| Hamburger
| MenuLink
| Unmount.

Definition apply (ev : Event) (w : World) : World :=
  match ev with
  | Scroll y =>
      if existsb (Nat.eqb (h w)) (window w) then setScrolled (gt y 40) w else w
  | Hamburger =>
      if mounted w then setMenuOpen (negb (menuOpen w)) w else w
  | MenuLink =>
      if mounted w && menuOpen w then setMenuOpen false w else w
  | Unmount => unmount w
  end.

Definition exec (evs : list Event) (w : World) : World :=
  fold_left (fun w ev => apply ev w) evs w.

Definition is_unmount (ev : Event) : bool :=
  match ev with Unmount => true | _ => false end.

Definition is_scroll (ev : Event) : bool :=
  match ev with Scroll _ => true | _ => false end.

(** A mounted Nav is listening. *)
Definition listening (w : World) : Prop :=
  mounted w = true /\ existsb (Nat.eqb (h w)) (window w) = true.

(** The handler is the one created at the mount, and it is registered on
    the window, after the listeners that were there, exactly as long as
    the component is mounted. *)
Definition wired (others : list nat) (w : World) : Prop :=
  h w = fresh others
  /\ window w = if mounted w then (others ++ [fresh others])%list else others.

(** Where the page was scrolled to last, if it was scrolled at all. *)
Definition last_scroll (evs : list Event) : option Q :=
  fold_left (fun a ev => match ev with Scroll y => Some y | _ => a end) evs None.

(** The [background] of the bar, line 93. *)
Definition background (scrolled dark : bool) : string :=
  if scrolled then (if dark then "rgba(10,10,15,0.92)" else "rgba(245,244,239,0.92)")
  else "transparent".

End Nav.

(* ------------------------------------------------------------------ *)
(** ** Colours written as text *)

Module Css.

Definition hex_digit (c : ascii) : option Z :=
  let n := Z.of_nat (nat_of_ascii c) in
  if (48 <=? n) && (n <=? 57) then Some (n - 48)
  else if (97 <=? n) && (n <=? 102) then Some (n - 87)
  else if (65 <=? n) && (n <=? 70) then Some (n - 55)
  else None.

Definition hex_byte (a b : ascii) : option Z :=
  match hex_digit a, hex_digit b with
  | Some x, Some y => Some (16 * x + y)
  | _, _ => None
  end.

(** The three channels of [#rrggbb]. *)
Definition rgb_of_hex (s : string) : option (Z * Z * Z) :=
  match s with
  | String "#" (String a (String b (String c (String d (String e (String f EmptyString)))))) =>
      match hex_byte a b, hex_byte c d, hex_byte e f with
      | Some r, Some g, Some b' => Some (r, g, b')
      | _, _, _ => None
      end
  | _ => None
  end.

(** [rgba(r,g,b,alpha)] *)
Definition rgba (r g b : Z) (alpha : string) : string :=
  ("rgba(" ++ JS.show r ++ "," ++ JS.show g ++ "," ++ JS.show b ++ "," ++ alpha ++ ")")%string.

End Css.

(* ------------------------------------------------------------------ *)
(** ** Hero: the dotted background (App.jsx 179-184) *)

Module HeroStyle.

(** [gridStyle.backgroundImage], computed from [dark], not from [c]. *)
Definition backgroundImage (dark : bool) : string :=
  if dark then "radial-gradient(circle, #f59e0b18 1px, transparent 1px)"
  else "radial-gradient(circle, #c2770a18 1px, transparent 1px)".

End HeroStyle.

(* ------------------------------------------------------------------ *)
(** ** ProjectCard: the accent colour (App.jsx 357-358) *)

Module ProjectCard.

Definition colors : list string :=
  ["#f59e0b"; "#10b981"; "#6366f1"; "#f43f5e"]%string.

(** [colors[i % colors.length]]; [None] is [undefined]. *)
Definition accent (i : Z) : option string :=
  JS.index colors (JS.rem i (JS.alength colors)).

End ProjectCard.

(* ------------------------------------------------------------------ *)
(** ** SkillBar (App.jsx 302-315) *)

Module SkillBar.

(** The inline style of the bar, line 311. *)
Record Style : Type := { width : string; transition : string }.

Definition style (visible : bool) (level delay : Z) : Style :=
  {| width := if visible then (JS.show level ++ "%")%string else "0%"%string;
     transition := ("width 1.2s " ++ JS.show delay
                      ++ "ms cubic-bezier(0.4,0,0.2,1)")%string |}.

(** The bar has a [useReveal] of its own. *)
Definition render (level delay : Z) (w : Reveal.World) : Style :=
  style (Reveal.visible w) level delay.

End SkillBar.

(* ------------------------------------------------------------------ *)
(** ** SEOMeta (App.jsx 667-688) *)

Module SEO.

(** One entry of [metas]: [name] and [property] may be missing. *)
Record Meta : Type :=
  { name : option string; property : option string; content : string }.

Record Element : Type :=
  { tag : string; attrs : list (string * string); text : string }.

(** A document with a head: the elements inside the head and the elements
    after it, both in tree order. *)
Record Document : Type := { head : list Element; rest : list Element }.

Definition is_title (e : Element) : bool := String.eqb (tag e) "title".

(** The text of the first [title] element of a list is replaced; [None]
    when the list has none. *)
Fixpoint retitle (t : string) (l : list Element) : option (list Element) :=
  match l with
  | [] => None
  | e :: r =>
      if is_title e
      then Some ({| tag := tag e; attrs := attrs e; text := t |} :: r)
      else option_map (cons e) (retitle t r)
  end.

(** [document.title = t]: the text of the document's first [title]
    element becomes [t]; a document without one gets a new [title]
    element with that text as the last child of its head. *)
Definition setTitle (t : string) (d : Document) : Document :=
  match retitle t (head d) with
  | Some h' => {| head := h'; rest := rest d |}
  | None =>
      match retitle t (rest d) with
      | Some r' => {| head := head d; rest := r' |}
      | None =>
          {| head := head d ++ [ {| tag := "title"; attrs := []; text := t |} ];
             rest := rest d |}
      end
  end.

(** The text of the document's [title] element, if it has one. *)
Definition title_text (d : Document) : option string :=
  option_map text (find is_title (head d ++ rest d)).

(** [if (x)] on a string that may be undefined: the empty string is falsy
    too. *)
Definition truthy (o : option string) : bool :=
  match o with
  | Some s => negb (String.eqb s "")
  | None => false
  end.

Definition str (o : option string) : string :=
  match o with Some s => s | None => "undefined"%string end.

(** [el.setAttribute(k, v)]: the value of an attribute that is there is
    replaced, a new attribute is added at the end. *)
Fixpoint set_attr (k v : string) (l : list (string * string)) : list (string * string) :=
  match l with
  | [] => [(k, v)]
  | (k', v') :: r => if String.eqb k' k then (k, v) :: r else (k', v') :: set_attr k v r
  end.

Definition setAttribute (k v : string) (el : Element) : Element :=
  {| tag := tag el; attrs := set_attr k v (attrs el); text := text el |}.

Fixpoint getAttribute (k : string) (l : list (string * string)) : option string :=
  match l with
  | [] => None
  | (k', v) :: r => if String.eqb k' k then Some v else getAttribute k r
  end.

Definition createElement (t : string) : Element :=
  {| tag := t; attrs := []; text := "" |}.

(** The element the body of [forEach] builds, lines 681-684. *)
Definition element (m : Meta) : Element :=
  let el := createElement "meta" in
  let el := if truthy (name m) then setAttribute "name" (str (name m)) el else el in
  let el := if truthy (property m) then setAttribute "property" (str (property m)) el else el in
  setAttribute "content" (content m) el.

(** [document.head.appendChild(el)] *)
Definition appendChild (el : Element) (d : Document) : Document :=
  {| head := head d ++ [el]; rest := rest d |}.

(** The effect: the title is set, then every entry is appended. *)
Definition effect (t : string) (metas : list Meta) (d : Document) : Document :=
  fold_left (fun d m => appendChild (element m) d) metas (setTitle t d).

(** What of an element the title setter never touches. *)
Definition shell (e : Element) : string * list (string * string) :=
  (tag e, attrs e).

End SEO.

(* ------------------------------------------------------------------ *)
(** ** More of the typewriter and of the contact form *)

Module Loop.

(** The timer firings and the milliseconds of one pass through all roles:
    per role its length in typing ticks and again in deleting ticks, plus
    the tick before the pause, the pause and the switch. *)
Definition firings (roles : list string) : nat :=
  fold_right (fun r acc => (2 * String.length r + 3 + acc)%nat) O roles.

Definition ms (roles : list string) : Z :=
  fold_right (fun r acc => 160 * JS.length r + 1960 + acc) 0 roles.

(** The pending timers of a Hero that is gone can only be pauses. *)
Definition only_pauses (w : Typewriter.World) : Prop :=
  Forall (fun x => Timers.cb x = Typewriter.Pause)
         (Timers.pending (Typewriter.host w)).

(** No callback threw, and the queue holds the one timer of a mounted
    Hero or at most a pause of one that is gone. *)
Definition calm (w : Typewriter.World) : Prop :=
  Typewriter.uncaught w = O
  /\ (List.length (Timers.pending (Typewriter.host w)) <= 1)%nat
  /\ (if Typewriter.mounted w
      then List.length (Timers.pending (Typewriter.host w)) = 1%nat
      else only_pauses w).

End Loop.

Module ContactClock.

(** Time passes on the page of the contact form while no timer is due. *)
Definition elapse (d : Z) (w : Contact.World) : Contact.World :=
  {| Contact.form := Contact.form w; Contact.sent := Contact.sent w;
     Contact.host := {| Timers.now := Timers.now (Contact.host w) + d;
                        Timers.nextId := Timers.nextId (Contact.host w);
                        Timers.pending := Timers.pending (Contact.host w) |};
     Contact.io := Contact.io w |}.

End ContactClock.

(* ================================================================== *)
(** * Properties *)

(** ** JavaScript helpers *)

Lemma slice0_zero (s : string) : JS.slice0 s 0 = ""%string.
Proof.
  unfold JS.slice0, JS.length. cbn.
  rewrite Z.min_l by lia. cbn. now destruct s.
Qed.

Lemma slice0_substring (s : string) (e : Z) :
  0 <= e <= JS.length s ->
  JS.slice0 s e = String.substring 0 (Z.to_nat e) s.
Proof.
  intros H. unfold JS.slice0.
  destruct (e <? 0) eqn:E; [apply Z.ltb_lt in E; lia|].
  now rewrite Z.min_l by lia.
Qed.

Lemma substring_prefix (n : nat) (s : string) :
  String.prefix (String.substring 0 n s) s = true.
Proof.
  revert s. induction n as [|n IH]; intros [|c s]; cbn; auto.
  destruct (ascii_dec c c); [apply IH | congruence].
Qed.

Lemma substring_length (n : nat) (s : string) :
  (n <= String.length s)%nat ->
  String.length (String.substring 0 n s) = n.
Proof.
  revert s. induction n as [|n IH]; intros [|c s]; cbn; intros H; auto; try lia.
  f_equal. apply IH. lia.
Qed.

Lemma index_some {A : Type} (l : list A) (j : Z) :
  0 <= j < JS.alength l -> exists x, JS.index l j = Some x.
Proof.
  unfold JS.alength, JS.index. intros H.
  destruct (j <? 0) eqn:E; [apply Z.ltb_lt in E; lia|].
  destruct (nth_error l (Z.to_nat j)) eqn:N; eauto.
  apply nth_error_None in N. lia.
Qed.

Lemma index_bounds {A : Type} (l : list A) (j : Z) (x : A) :
  JS.index l j = Some x -> 0 <= j < JS.alength l.
Proof.
  unfold JS.alength, JS.index.
  destruct (j <? 0) eqn:E; [discriminate|]. apply Z.ltb_ge in E.
  intros N. assert (Z.to_nat j < List.length l)%nat; [|lia].
  apply nth_error_Some. congruence.
Qed.

Lemma rem_next (i n : Z) :
  0 <= i < n -> JS.rem (i + 1) n = (i + 1) mod n /\ 0 <= (i + 1) mod n < n.
Proof.
  intros H. unfold JS.rem. rewrite Z.rem_mod_nonneg by lia.
  split; [reflexivity | apply Z.mod_pos_bound; lia].
Qed.

(** ** The timer queue *)

Lemma pop_single {C : Type} (t : Z) (nx : nat) (x : Timers.timer C) :
  Timers.pop {| Timers.now := t; Timers.nextId := nx; Timers.pending := [x] |}
  = Some (x, {| Timers.now := Z.max t (Timers.due x); Timers.nextId := nx;
                Timers.pending := [] |}).
Proof.
  unfold Timers.pop. cbn. now rewrite Nat.eqb_refl.
Qed.

(** ** One timer firing of the typewriter, state by state *)

Section TypewriterSteps.
Import Typewriter TypewriterStates.
Variable roles : list string.

(** The branch the tick takes, by what its closure captured. *)
Lemma tick_typing k w cur :
  current k = Some cur -> c_deleting k = false -> c_charIdx k < JS.length cur ->
  tick roles k w
  = setCharIdx (fun c => c + 1) (setTyped (JS.slice0 cur (c_charIdx k + 1)) w).
Proof.
  intros Hc Hd Hlt. unfold tick. rewrite Hc, Hd.
  apply Z.ltb_lt in Hlt. now rewrite Hlt.
Qed.

Lemma tick_full k w cur :
  current k = Some cur -> c_deleting k = false -> c_charIdx k = JS.length cur ->
  tick roles k w = schedulePause w.
Proof.
  intros Hc Hd Heq. unfold tick. rewrite Hc, Hd, Heq.
  now rewrite Z.ltb_irrefl, Z.eqb_refl.
Qed.

Lemma tick_deleting k w cur :
  current k = Some cur -> c_deleting k = true -> 0 < c_charIdx k ->
  tick roles k w
  = setCharIdx (fun c => c - 1) (setTyped (JS.slice0 cur (c_charIdx k - 1)) w).
Proof.
  intros Hc Hd Hlt. unfold tick. rewrite Hc, Hd.
  apply Z.ltb_lt in Hlt. now rewrite Hlt.
Qed.

Lemma tick_empty k w :
  c_deleting k = true -> c_charIdx k <= 0 ->
  tick roles k w = nextRole roles w.
Proof.
  intros Hd Hle. unfold tick. rewrite Hd.
  apply Z.ltb_ge in Hle. rewrite Hle. now destruct (current k).
Qed.

(** The commit re-runs the effect exactly when a dependency changed. *)
Lemma commit_changed old h id t nx log u :
  deps_eqb old h = false ->
  commit roles old
    {| hooks := h; mounted := true; effectTimer := Some id;
       host := {| Timers.now := t; Timers.nextId := nx; Timers.pending := [] |};
       calls := log; uncaught := u |}
  = ticking roles h t nx (S nx) log u.
Proof.
  intros Hd. unfold commit. cbn [mounted hooks]. rewrite Hd. reflexivity.
Qed.

Lemma commit_same old w :
  deps_eqb old (hooks w) = true -> commit roles old w = w.
Proof.
  intros Hd. unfold commit. rewrite Hd. now rewrite andb_false_r.
Qed.

Lemma deps_charIdx ty ty' ri ci ci' d :
  ci <> ci' ->
  deps_eqb {| typed := ty; roleIdx := ri; charIdx := ci; deleting := d |}
           {| typed := ty'; roleIdx := ri; charIdx := ci'; deleting := d |}
  = false.
Proof.
  intros Hne. unfold deps_eqb. cbn [charIdx].
  apply Z.eqb_neq in Hne. now rewrite Hne.
Qed.

Lemma deps_deleting ty ty' ri ri' ci ci' d :
  deps_eqb {| typed := ty; roleIdx := ri; charIdx := ci; deleting := d |}
           {| typed := ty'; roleIdx := ri'; charIdx := ci'; deleting := negb d |}
  = false.
Proof.
  unfold deps_eqb. cbn [deleting].
  destruct d; cbn; now rewrite andb_false_r.
Qed.

Lemma deps_refl h : deps_eqb h h = true.
Proof.
  unfold deps_eqb. rewrite !Z.eqb_refl. now destruct (deleting h).
Qed.

Ltac pop_timer :=
  unfold step, ticking; cbn [host];
  rewrite pop_single; cbn [Timers.cb Timers.due];
  rewrite Z.max_r by (unfold delay; cbn [deleting]; lia);
  unfold fire, with_host; cbn [hooks mounted effectTimer calls uncaught].

(** Typing: one more character, 100ms after the previous commit. *)
Lemma step_typing ty ri ci t id nx log u cur :
  JS.index roles ri = Some cur -> ci < JS.length cur ->
  step roles (ticking roles
                {| typed := ty; roleIdx := ri; charIdx := ci; deleting := false |}
                t id nx log u)
  = Some (ticking roles
            {| typed := JS.slice0 cur (ci + 1); roleIdx := ri;
               charIdx := ci + 1; deleting := false |}
            (t + 100) nx (S nx)
            (log ++ [SetTyped (JS.slice0 cur (ci + 1)); SetCharIdx]) u).
Proof.
  intros Hcur Hlt. pop_timer.
  rewrite (tick_typing _ _ cur) by (cbn; auto).
  unfold setCharIdx, setTyped, with_hooks.
  cbn [hooks mounted effectTimer host calls uncaught
       typed roleIdx charIdx deleting closure c_charIdx delay].
  rewrite commit_changed by (apply deps_charIdx; lia).
  unfold ticking. now rewrite <- app_assoc.
Qed.

(** The tick at the end of a role: no cell changes, the nested timer is
    the only thing scheduled. *)
Lemma step_full ty ri ci t id nx log u cur :
  JS.index roles ri = Some cur -> ci = JS.length cur ->
  step roles (ticking roles
                {| typed := ty; roleIdx := ri; charIdx := ci; deleting := false |}
                t id nx log u)
  = Some (pausing
            {| typed := ty; roleIdx := ri; charIdx := ci; deleting := false |}
            (t + 100) id nx (S nx) log u).
Proof.
  intros Hcur Heq. pop_timer.
  rewrite (tick_full _ _ cur) by (cbn; auto).
  rewrite commit_same by apply deps_refl.
  reflexivity.
Qed.

(** The nested timer: [deleting] becomes true, 1800ms after it was set. *)
Lemma step_pause ty ri ci t id pid nx log u :
  step roles (pausing
                {| typed := ty; roleIdx := ri; charIdx := ci; deleting := false |}
                t id pid nx log u)
  = Some (ticking roles
            {| typed := ty; roleIdx := ri; charIdx := ci; deleting := true |}
            (t + 1800) nx (S nx) (log ++ [SetDeleting true]) u).
Proof.
  unfold step, pausing; cbn [host].
  rewrite pop_single; cbn [Timers.cb Timers.due].
  rewrite Z.max_r by lia.
  unfold fire, with_host, setDeleting, with_hooks.
  cbn [hooks mounted effectTimer host calls uncaught
       typed roleIdx charIdx deleting].
  now rewrite commit_changed by apply (deps_deleting ty ty ri ri ci ci false).
Qed.

(** Deleting: one character less, 60ms after the previous commit. *)
Lemma step_deleting ty ri ci t id nx log u cur :
  JS.index roles ri = Some cur -> 0 < ci ->
  step roles (ticking roles
                {| typed := ty; roleIdx := ri; charIdx := ci; deleting := true |}
                t id nx log u)
  = Some (ticking roles
            {| typed := JS.slice0 cur (ci - 1); roleIdx := ri;
               charIdx := ci - 1; deleting := true |}
            (t + 60) nx (S nx)
            (log ++ [SetTyped (JS.slice0 cur (ci - 1)); SetCharIdx]) u).
Proof.
  intros Hcur Hlt. pop_timer.
  rewrite (tick_deleting _ _ cur) by (cbn; auto).
  unfold setCharIdx, setTyped, with_hooks.
  cbn [hooks mounted effectTimer host calls uncaught
       typed roleIdx charIdx deleting closure c_charIdx delay].
  rewrite commit_changed by (apply deps_charIdx; lia).
  unfold ticking. now rewrite <- app_assoc.
Qed.

(** The tick on the emptied text: [deleting] is reset and the next role is
    taken, 60ms after the previous commit. *)
Lemma step_empty ty ri ci t id nx log u :
  ci <= 0 ->
  step roles (ticking roles
                {| typed := ty; roleIdx := ri; charIdx := ci; deleting := true |}
                t id nx log u)
  = Some (ticking roles
            {| typed := ty; roleIdx := JS.rem (ri + 1) (JS.alength roles);
               charIdx := ci; deleting := false |}
            (t + 60) nx (S nx) (log ++ [SetDeleting false; SetRoleIdx]) u).
Proof.
  intros Hle. pop_timer.
  rewrite tick_empty by (cbn; auto).
  unfold nextRole, setRoleIdx, setDeleting, with_hooks.
  cbn [hooks mounted effectTimer host calls uncaught
       typed roleIdx charIdx deleting].
  rewrite commit_changed by apply (deps_deleting ty ty ri _ ci ci true).
  unfold ticking. now rewrite <- app_assoc.
Qed.

End TypewriterSteps.

(** ** What every reachable state of the typewriter satisfies *)

Section TypewriterInvariant.
Import Typewriter TypewriterStates.
Variable roles : list string.

Lemma mount_ticking : mount roles = ticking roles init 0 1 2 [] 0.
Proof. reflexivity. Qed.

Lemma good_init : roles <> [] -> good roles init.
Proof.
  intros Hne. destruct roles as [|r rs]; [congruence|].
  exists r. split; [reflexivity|]. split.
  - unfold JS.length. cbn [charIdx init]. lia.
  - symmetry. apply slice0_zero.
Qed.

Lemma good_index h : good roles h -> 0 <= roleIdx h < JS.alength roles.
Proof. intros (cur & Hc & _). eapply index_bounds; eauto. Qed.

(** Once the component is gone no callback changes a cell. *)
Lemma with_hooks_unmounted f c w :
  mounted w = false ->
  mounted (with_hooks f c w) = false /\ hooks (with_hooks f c w) = hooks w.
Proof. intros Hm. unfold with_hooks. cbn. now rewrite Hm. Qed.

Lemma tick_unmounted k w :
  mounted w = false ->
  mounted (tick roles k w) = false /\ hooks (tick roles k w) = hooks w.
Proof.
  intros Hm.
  assert (Hn : mounted (nextRole roles w) = false
               /\ hooks (nextRole roles w) = hooks w).
  { unfold nextRole, setRoleIdx, setDeleting.
    destruct (with_hooks_unmounted
                (fun h => {| typed := typed h; roleIdx := roleIdx h;
                             charIdx := charIdx h; deleting := false |})
                (SetDeleting false) w Hm) as [Hm1 Hh1].
    split; [now apply with_hooks_unmounted|].
    etransitivity; [now apply with_hooks_unmounted | exact Hh1]. }
  assert (Hc : forall f s, mounted (setCharIdx f (setTyped s w)) = false
                           /\ hooks (setCharIdx f (setTyped s w)) = hooks w).
  { intros f s. unfold setCharIdx, setTyped.
    destruct (with_hooks_unmounted
                (fun h => {| typed := s; roleIdx := roleIdx h;
                             charIdx := charIdx h; deleting := deleting h |})
                (SetTyped s) w Hm) as [Hm1 Hh1].
    split; [now apply with_hooks_unmounted|].
    etransitivity; [now apply with_hooks_unmounted | exact Hh1]. }
  unfold tick.
  destruct (current k) as [cur|].
  - destruct (negb (c_deleting k) && (c_charIdx k <? JS.length cur)); [apply Hc|].
    destruct (negb (c_deleting k) && (c_charIdx k =? JS.length cur)); [now split|].
    destruct (c_deleting k && (0 <? c_charIdx k)); [apply Hc | apply Hn].
  - destruct (negb (c_deleting k)); [now split|].
    destruct (0 <? c_charIdx k); [now split | apply Hn].
Qed.

Lemma fire_unmounted c w :
  mounted w = false ->
  mounted (fire roles c w) = false /\ hooks (fire roles c w) = hooks w.
Proof.
  intros Hm. unfold fire, commit.
  assert (H : mounted match c with
                      | Tick k => tick roles k w
                      | Pause => setDeleting true w
                      end = false
              /\ hooks match c with
                       | Tick k => tick roles k w
                       | Pause => setDeleting true w
                       end = hooks w).
  { destruct c as [k|]; [now apply tick_unmounted|].
    unfold setDeleting. now apply with_hooks_unmounted. }
  destruct H as [H1 H2]. rewrite H1. cbn. now split.
Qed.

Lemma step_unmounted w w' :
  mounted w = false -> step roles w = Some w' ->
  mounted w' = false /\ hooks w' = hooks w.
Proof.
  unfold step. intros Hm H.
  destruct (Timers.pop (host w)) as [[x q]|]; [|discriminate].
  injection H as <-. now apply (fire_unmounted (Timers.cb x) (with_host q w)).
Qed.

Lemma Inv_step w w' : Inv roles w -> step roles w = Some w' -> Inv roles w'.
Proof.
  intros HI Hs. destruct HI as [h t id nx log u G | h t id pid nx log u G Hd | w Hm G].
  - destruct h as [ty ri ci d]. pose proof (good_index _ G) as Hri.
    destruct G as (cur & Hc & Hb & Ht). cbn in Hri, Hc, Hb, Ht.
    destruct d.
    + destruct (Z_lt_le_dec 0 ci) as [Hpos|Hle].
      * rewrite (step_deleting roles ty ri ci t id nx log u cur Hc Hpos) in Hs.
        injection Hs as <-. constructor. exists cur. cbn. repeat split; auto; lia.
      * rewrite (step_empty roles ty ri ci t id nx log u Hle) in Hs.
        injection Hs as <-. constructor.
        destruct (rem_next ri (JS.alength roles) Hri) as [-> Hb'].
        destruct (index_some roles _ Hb') as [cur' Hc'].
        exists cur'. cbn. assert (ci = 0) by lia. subst ci.
        split; [exact Hc'|]. split; [unfold JS.length; lia|].
        now rewrite Ht, !slice0_zero.
    + destruct (Z_lt_le_dec ci (JS.length cur)) as [Hlt|Hge].
      * rewrite (step_typing roles ty ri ci t id nx log u cur Hc Hlt) in Hs.
        injection Hs as <-. constructor. exists cur. cbn. repeat split; auto; lia.
      * assert (Heq : ci = JS.length cur) by lia.
        rewrite (step_full roles ty ri ci t id nx log u cur Hc Heq) in Hs.
        injection Hs as <-. constructor; [|reflexivity].
        exists cur. cbn. repeat split; auto; lia.
  - destruct h as [ty ri ci d]. cbn in Hd. subst d.
    rewrite step_pause in Hs. injection Hs as <-. constructor. exact G.
  - destruct (step_unmounted w w' Hm Hs) as [Hm' Hh].
    apply Inv_gone; [exact Hm' | now rewrite Hh].
Qed.

Lemma Inv_unmount w : Inv roles w -> Inv roles (unmount w).
Proof.
  intros HI. unfold unmount. destruct (mounted w) eqn:Hm; [|exact HI].
  apply Inv_gone; [reflexivity|]. cbn.
  assert (E : hooks (cleanup w) = hooks w)
    by (unfold cleanup; destruct (effectTimer w); reflexivity).
  rewrite E. destruct HI; auto.
Qed.

Lemma Inv_good w : Inv roles w -> good roles (hooks w).
Proof. intros []; auto. Qed.

Lemma Inv_exec evs w : Inv roles w -> Inv roles (exec roles evs w).
Proof.
  revert w. induction evs as [|e evs IH]; intros w HI; [exact HI|].
  cbn. apply IH. destruct e; cbn.
  - destruct (step roles w) as [w'|] eqn:Hs; [eapply Inv_step; eauto | exact HI].
  - now apply Inv_unmount.
Qed.

(** While mounted the next timer is always there, and it is due at least
    60ms ahead. *)
Lemma Inv_progress w :
  Inv roles w -> mounted w = true ->
  exists w', step roles w = Some w'
             /\ Timers.now (host w) + 60 <= Timers.now (host w').
Proof.
  intros HI Hm. destruct HI as [h t id nx log u G | h t id pid nx log u G Hd | w Hg G].
  - destruct h as [ty ri ci d]. destruct G as (cur & Hc & Hb & Ht).
    cbn in Hc, Hb, Ht.
    destruct d.
    + destruct (Z_lt_le_dec 0 ci) as [Hpos|Hle].
      * rewrite (step_deleting roles ty ri ci t id nx log u cur Hc Hpos).
        eexists; split; [reflexivity|]. cbn. lia.
      * rewrite (step_empty roles ty ri ci t id nx log u Hle).
        eexists; split; [reflexivity|]. cbn. lia.
    + destruct (Z_lt_le_dec ci (JS.length cur)) as [Hlt|Hge].
      * rewrite (step_typing roles ty ri ci t id nx log u cur Hc Hlt).
        eexists; split; [reflexivity|]. cbn. lia.
      * assert (Heq : ci = JS.length cur) by lia.
        rewrite (step_full roles ty ri ci t id nx log u cur Hc Heq).
        eexists; split; [reflexivity|]. cbn. lia.
  - destruct h as [ty ri ci d]. cbn in Hd. subst d.
    rewrite step_pause. eexists; split; [reflexivity|]. cbn. lia.
  - congruence.
Qed.

End TypewriterInvariant.

(** ** A whole cycle of the typewriter *)

Section TypewriterCycle.
Import Typewriter TypewriterStates.
Variable roles : list string.

Lemma run_app a b w :
  run roles (a + b) w
  = match run roles a w with Some w' => run roles b w' | None => None end.
Proof.
  revert w. induction a as [|a IH]; intros w; cbn; [reflexivity|].
  destruct (step roles w); [apply IH | reflexivity].
Qed.

(** [k] typing ticks take the text from [ci] to [ci + k] characters. *)
Lemma typing_phase k : forall ri ci t id nx log u cur,
  JS.index roles ri = Some cur -> ci + Z.of_nat k <= JS.length cur ->
  exists id' nx' log',
    run roles k
      (ticking roles {| typed := JS.slice0 cur ci; roleIdx := ri;
                        charIdx := ci; deleting := false |} t id nx log u)
    = Some (ticking roles
              {| typed := JS.slice0 cur (ci + Z.of_nat k); roleIdx := ri;
                 charIdx := ci + Z.of_nat k; deleting := false |}
              (t + 100 * Z.of_nat k) id' nx' log' u).
Proof.
  induction k as [|k IH]; intros ri ci t id nx log u cur Hc Hle.
  - exists id, nx, log. cbn [run]. repeat f_equal; cbn; lia.
  - cbn [run]. rewrite (step_typing roles _ ri ci t id nx log u cur Hc) by lia.
    destruct (IH ri (ci + 1) (t + 100) nx (S nx)
                (log ++ [SetTyped (JS.slice0 cur (ci + 1)); SetCharIdx])%list
                u cur Hc ltac:(lia)) as (id' & nx' & log' & E).
    exists id', nx', log'. rewrite E.
    replace (ci + 1 + Z.of_nat k) with (ci + Z.of_nat (S k)) by lia.
    replace (t + 100 + 100 * Z.of_nat k) with (t + 100 * Z.of_nat (S k)) by lia.
    reflexivity.
Qed.

(** [k] deleting ticks take the text from [k] characters to none. *)
Lemma deleting_phase k : forall ri t id nx log u cur,
  JS.index roles ri = Some cur ->
  exists id' nx' log',
    run roles k
      (ticking roles {| typed := JS.slice0 cur (Z.of_nat k); roleIdx := ri;
                        charIdx := Z.of_nat k; deleting := true |} t id nx log u)
    = Some (ticking roles
              {| typed := JS.slice0 cur 0; roleIdx := ri;
                 charIdx := 0; deleting := true |}
              (t + 60 * Z.of_nat k) id' nx' log' u).
Proof.
  induction k as [|k IH]; intros ri t id nx log u cur Hc.
  - exists id, nx, log. cbn [run]. repeat f_equal; cbn; lia.
  - cbn [run]. rewrite (step_deleting roles _ ri _ t id nx log u cur Hc) by lia.
    replace (Z.of_nat (S k) - 1) with (Z.of_nat k) by lia.
    destruct (IH ri (t + 60) nx (S nx)
                (log ++ [SetTyped (JS.slice0 cur (Z.of_nat k)); SetCharIdx])%list
                u cur Hc) as (id' & nx' & log' & E).
    exists id', nx', log'. rewrite E.
    replace (t + 60 + 60 * Z.of_nat k) with (t + 60 * Z.of_nat (S k)) by lia.
    reflexivity.
Qed.

(** Type, pause, delete, switch: from the start of role [i] to the start of
    the next one. *)
Lemma cycle_once i cur w :
  JS.index roles i = Some cur -> ready roles i w ->
  exists w',
    run roles (2 * String.length cur + 3) w = Some w'
    /\ ready roles ((i + 1) mod JS.alength roles) w'
    /\ Timers.now (host w')
       = Timers.now (host w) + 160 * JS.length cur + 1960.
Proof.
  intros Hc (t & id & nx & log & u & ->).
  pose proof (index_bounds _ _ _ Hc) as Hi.
  set (L := String.length cur).
  replace (2 * L + 3)%nat with (L + (1 + (1 + (L + 1))))%nat by lia.
  unfold start. rewrite <- (slice0_zero cur).
  destruct (typing_phase L i 0 t id nx log u cur Hc) as (i1 & n1 & l1 & E1);
    [unfold JS.length; fold L; lia|].
  rewrite !Z.add_0_l in E1. rewrite run_app, E1.
  rewrite run_app. cbn [run].
  rewrite (step_full roles _ i _ _ i1 n1 l1 u cur Hc) by reflexivity.
  rewrite run_app. cbn [run]. rewrite step_pause.
  destruct (deleting_phase L i (t + 100 * Z.of_nat L + 100 + 1800)
              (S n1) (S (S n1))
              (l1 ++ [SetDeleting true])%list u cur Hc) as (i2 & n2 & l2 & E2).
  rewrite run_app, E2. cbn [run].
  rewrite step_empty by lia.
  destruct (rem_next i (JS.alength roles) Hi) as [-> _].
  eexists. split; [reflexivity|]. split.
  - rewrite slice0_zero. unfold ready, start. now eexists _, _, _, _, _.
  - unfold ticking, JS.length. cbn [host Timers.now]. fold L. lia.
Qed.

Lemma cycle_many i w (k : nat) :
  0 <= i < JS.alength roles -> ready roles i w ->
  exists m w',
    run roles m w = Some w'
    /\ ready roles ((i + Z.of_nat k) mod JS.alength roles) w'.
Proof.
  intros Hi Hr. induction k as [|k (m & w' & Hrun & Hr')].
  - exists O, w. split; [reflexivity|].
    now rewrite Z.add_0_r, Z.mod_small.
  - assert (Hb : 0 <= (i + Z.of_nat k) mod JS.alength roles < JS.alength roles)
      by (apply Z.mod_pos_bound; lia).
    destruct (index_some roles _ Hb) as [cur Hc].
    destruct (cycle_once _ cur w' Hc Hr') as (w'' & Hrun' & Hr'' & _).
    exists (m + (2 * String.length cur + 3))%nat, w''.
    split; [now rewrite run_app, Hrun|].
    replace (i + Z.of_nat (S k)) with (i + Z.of_nat k + 1) by lia.
    now rewrite <- Zplus_mod_idemp_l.
Qed.

End TypewriterCycle.

(** ** The typewriter: the claims *)

Section TypewriterClaims.
Import Typewriter TypewriterStates.

(** C1 - Typewriter prefix invariant. For a role list of non-empty length
    and after any sequence of timer firings (and an unmount anywhere in
    it) starting from the mount, [roleIdx] points at a role, [charIdx]
    lies between 0 and that role's length, and the displayed text [typed]
    is [roles[roleIdx].slice(0, charIdx)]: the prefix of the current role
    of length [charIdx]. *)
Theorem typewriter_prefix_invariant (roles : list string) (evs : list Event) :
  0 < JS.alength roles ->
  let h := hooks (exec roles evs (mount roles)) in
  exists cur,
    JS.index roles (roleIdx h) = Some cur
    /\ 0 <= charIdx h <= JS.length cur
    /\ typed h = JS.slice0 cur (charIdx h)
    /\ typed h = String.substring 0 (Z.to_nat (charIdx h)) cur
    /\ String.prefix (typed h) cur = true
    /\ JS.length (typed h) = charIdx h.
Proof.
  intros Hne h.
  assert (Hroles : roles <> []) by (destruct roles; [cbn in Hne; lia | discriminate]).
  assert (HI : Inv roles (exec roles evs (mount roles))).
  { apply Inv_exec. rewrite mount_ticking. constructor. now apply good_init. }
  destruct (Inv_good _ _ HI) as (cur & Hc & Hb & Ht). fold h in Hc, Hb, Ht.
  exists cur. split; [exact Hc|]. split; [exact Hb|]. split; [exact Ht|].
  rewrite slice0_substring in Ht by exact Hb.
  split; [exact Ht|]. rewrite Ht. split; [apply substring_prefix|].
  unfold JS.length in *. rewrite substring_length by lia. lia.
Qed.

Lemma typewriter_prefix_invariant_witness :
  0 < JS.alength page_roles
  /\ let h := hooks (exec page_roles [Fire; Fire; Fire] (mount page_roles)) in
     exists cur,
       JS.index page_roles (roleIdx h) = Some cur
       /\ 0 <= charIdx h <= JS.length cur
       /\ typed h = JS.slice0 cur (charIdx h)
       /\ typed h = String.substring 0 (Z.to_nat (charIdx h)) cur
       /\ String.prefix (typed h) cur = true
       /\ JS.length (typed h) = charIdx h.
Proof.
  split; [reflexivity|].
  apply (typewriter_prefix_invariant page_roles [Fire; Fire; Fire]).
  reflexivity.
Defined.

(** C3 - Teardown does not cancel the nested pause timer. The cleanup
    clears the effect's own timer, so unmounting between two ticks leaves
    nothing pending. On the page's role list, after the 16 typing ticks of
    "Business Analyst" and the tick that starts the pause, an unmount
    leaves the nested timer pending with its full 1800ms; when it fires,
    the component is gone and [setDeleting(true)] is called all the same. *)
Theorem pause_timer_survives_unmount :
  (forall roles h t id nx log u,
      Timers.pending (host (unmount (ticking roles h t id nx log u))) = [])
  /\ let w := exec page_roles (repeat Fire 17 ++ [Unmount]) (mount page_roles) in
     mounted w = false
     /\ outstanding w = [(1800, Pause)]
     /\ exists w',
         step page_roles w = Some w'
         /\ Timers.now (host w') = Timers.now (host w) + 1800
         /\ calls w' = (calls w ++ [SetDeleting true])%list.
Proof.
  split.
  - intros. cbn. now rewrite Nat.eqb_refl.
  - vm_compute. split; [reflexivity|]. split; [reflexivity|].
    eexists. split; [reflexivity|]. split; reflexivity.
Qed.

(** C4 - Cycle completeness. From the start of role [i] (no character
    typed, not deleting, the effect's timer pending), the
    [2 * length + 3] timer firings of one type, pause, delete, switch cycle
    lead to the start of role [(i + 1) mod length(roles)]: [charIdx] is 0
    and [deleting] is false again. This goes on for any number of cycles,
    and a list with a single role comes back to that role. *)
Theorem typewriter_cycle_completeness
    (roles : list string) (i : Z) (cur : string) (w : World) :
  JS.index roles i = Some cur ->
  ready roles i w ->
  (exists w',
      run roles (2 * String.length cur + 3) w = Some w'
      /\ ready roles ((i + 1) mod JS.alength roles) w'
      /\ roleIdx (hooks w') = (i + 1) mod JS.alength roles
      /\ charIdx (hooks w') = 0
      /\ deleting (hooks w') = false
      /\ Timers.now (host w') = Timers.now (host w) + 160 * JS.length cur + 1960)
  /\ (forall k : nat,
         exists m w',
           run roles m w = Some w'
           /\ ready roles ((i + Z.of_nat k) mod JS.alength roles) w')
  /\ match roles with
     | [_] => (i + 1) mod JS.alength roles = i
     | _ => True
     end.
Proof.
  intros Hc Hr. pose proof (index_bounds _ _ _ Hc) as Hi. split; [|split].
  - destruct (cycle_once roles i cur w Hc Hr) as (w' & Hrun & Hr' & Ht).
    exists w'. split; [exact Hrun|]. split; [exact Hr'|].
    destruct Hr' as (t & id & nx & log & u & ->). cbn. auto.
  - intros k. now apply cycle_many.
  - destruct roles as [|r [|r' rs]]; auto.
    cbn in Hi. assert (i = 0) by lia. now subst.
Qed.

Lemma typewriter_cycle_completeness_witness :
  exists w',
    run page_roles (2 * String.length "Business Analyst" + 3) (mount page_roles)
    = Some w'
    /\ roleIdx (hooks w') = 1 /\ charIdx (hooks w') = 0
    /\ deleting (hooks w') = false.
Proof.
  destruct (typewriter_cycle_completeness page_roles 0 "Business Analyst"
              (mount page_roles)) as [(w' & Hrun & _ & Hri & Hci & Hd & _) _].
  - reflexivity.
  - exists 0, 1%nat, 2%nat, [], 0%nat. reflexivity.
  - exists w'. auto.
Defined.

(** C5 - Empty role. When the current role is the empty string, the
    controller does not stall: the tick fires after 100ms and, typing
    nothing, starts the pause; the pause ends after 1800ms; the next tick
    fires after 60ms and moves on to the next role. Three timer firings and
    1960ms after the start of the empty role the next role starts, and no
    setter of the text has been called. *)
Theorem typewriter_empty_role_progress (roles : list string) (i : Z) (w : World) :
  JS.index roles i = Some ""%string ->
  ready roles i w ->
  exists w1 w2 w3,
    step roles w = Some w1 /\ step roles w1 = Some w2 /\ step roles w2 = Some w3
    /\ Timers.now (host w1) = Timers.now (host w) + 100
    /\ Timers.now (host w2) = Timers.now (host w1) + 1800
    /\ Timers.now (host w3) = Timers.now (host w2) + 60
    /\ phase "" (hooks w) = PausedFull
    /\ ready roles ((i + 1) mod JS.alength roles) w3
    /\ calls w3 = (calls w ++ [SetDeleting true; SetDeleting false; SetRoleIdx])%list
    /\ existsb is_typing_call [SetDeleting true; SetDeleting false; SetRoleIdx] = false.
Proof.
  intros Hc (t & id & nx & log & u & ->).
  pose proof (index_bounds _ _ _ Hc) as Hi.
  unfold start.
  do 3 eexists.
  split; [apply (step_full roles _ i 0 t id nx log u ""%string Hc); reflexivity|].
  split; [apply step_pause|].
  split; [apply step_empty; lia|].
  destruct (rem_next i (JS.alength roles) Hi) as [-> _].
  cbn [host Timers.now ticking pausing hooks calls].
  repeat split; try lia.
  - now exists (t + 100 + 1800 + 60), (S (S nx)), (S (S (S nx))),
      ((log ++ [SetDeleting true]) ++ [SetDeleting false; SetRoleIdx])%list, u.
  - now rewrite <- app_assoc.
Qed.

Lemma typewriter_empty_role_progress_witness :
  exists w3,
    run [""%string] 3 (mount [""%string]) = Some w3
    /\ Timers.now (host w3) = 1960
    /\ hooks w3 = start 0.
Proof.
  destruct (typewriter_empty_role_progress [""%string] 0 (mount [""%string]))
    as (w1 & w2 & w3 & H1 & H2 & H3 & T1 & T2 & T3 & _ & Hr & _).
  - reflexivity.
  - exists 0, 1%nat, 2%nat, [], 0%nat. reflexivity.
  - exists w3. cbn [run]. rewrite H1, H2, H3. split; [reflexivity|].
    split.
    + rewrite T3, T2, T1. reflexivity.
    + destruct Hr as (t & id & nx & log & u & ->). reflexivity.
Defined.

(** C6 (as amended) - Timing and step sizes. Between two ticks, with the
    cells agreeing with the current role [cur]:
    - Typing: the tick fires after 100ms, [charIdx] grows by one and the
      text is the slice one character longer;
    - Deleting: the tick fires after 60ms, [charIdx] shrinks by one and the
      text is the slice one character shorter;
    - PausedFull: the tick fires after 100ms, changes no cell and leaves
      exactly one pending timer, the one-shot one of 1800ms; when that
      fires, 1900ms after the state was entered, [deleting] is true and
      nothing else changed;
    - PausedEmpty: the tick fires after 60ms, resets [deleting] and moves
      [roleIdx] on. *)
Theorem typewriter_tick_timing
    (roles : list string) (h : Hooks) (t : Z) (id nx : nat)
    (log : list SetterCall) (u : nat) (cur : string) :
  JS.index roles (roleIdx h) = Some cur ->
  0 <= charIdx h <= JS.length cur ->
  let w := ticking roles h t id nx log u in
  outstanding w = [(delay h, Tick (closure roles h))]
  /\ match phase cur h with
     | Typing =>
         delay h = 100
         /\ exists w',
             step roles w = Some w'
             /\ Timers.now (host w') = t + 100
             /\ hooks w' = {| typed := JS.slice0 cur (charIdx h + 1);
                              roleIdx := roleIdx h;
                              charIdx := charIdx h + 1;
                              deleting := false |}
             /\ JS.length (typed (hooks w')) = charIdx h + 1
     | Deleting =>
         delay h = 60
         /\ exists w',
             step roles w = Some w'
             /\ Timers.now (host w') = t + 60
             /\ hooks w' = {| typed := JS.slice0 cur (charIdx h - 1);
                              roleIdx := roleIdx h;
                              charIdx := charIdx h - 1;
                              deleting := true |}
             /\ JS.length (typed (hooks w')) = charIdx h - 1
     | PausedFull =>
         delay h = 100
         /\ exists w1 w2,
             step roles w = Some w1
             /\ Timers.now (host w1) = t + 100
             /\ hooks w1 = h
             /\ outstanding w1 = [(1800, Pause)]
             /\ step roles w1 = Some w2
             /\ Timers.now (host w2) = t + 1900
             /\ hooks w2 = {| typed := typed h; roleIdx := roleIdx h;
                              charIdx := charIdx h; deleting := true |}
     | PausedEmpty =>
         delay h = 60
         /\ exists w',
             step roles w = Some w'
             /\ Timers.now (host w') = t + 60
             /\ hooks w' = {| typed := typed h;
                              roleIdx := JS.rem (roleIdx h + 1) (JS.alength roles);
                              charIdx := charIdx h;
                              deleting := false |}
     end.
Proof.
  intros Hc Hb w. subst w. split.
  { unfold outstanding, ticking. cbn [host Timers.pending Timers.now map
      Timers.due Timers.cb]. repeat f_equal. lia. }
  destruct h as [ty ri ci d]. cbn [roleIdx charIdx typed] in *.
  unfold phase, delay. cbn [deleting charIdx].
  assert (Hlen : forall e, 0 <= e <= JS.length cur ->
                           JS.length (JS.slice0 cur e) = e).
  { intros e He. rewrite slice0_substring by exact He. unfold JS.length in *.
    rewrite substring_length by lia. lia. }
  destruct d.
  - destruct (0 <? ci) eqn:E.
    + apply Z.ltb_lt in E. split; [reflexivity|].
      eexists. split; [apply (step_deleting roles ty ri ci t id nx log u cur Hc E)|].
      cbn [ticking host hooks Timers.now typed].
      repeat split. apply Hlen. lia.
    + apply Z.ltb_ge in E. split; [reflexivity|].
      eexists. split; [apply (step_empty roles ty ri ci t id nx log u E)|].
      cbn [ticking host hooks Timers.now]. now repeat split.
  - destruct (ci <? JS.length cur) eqn:E.
    + apply Z.ltb_lt in E. split; [reflexivity|].
      eexists. split; [apply (step_typing roles ty ri ci t id nx log u cur Hc E)|].
      cbn [ticking host hooks Timers.now typed].
      repeat split. apply Hlen. lia.
    + apply Z.ltb_ge in E. assert (Heq : ci = JS.length cur) by lia.
      split; [reflexivity|].
      do 2 eexists.
      split; [apply (step_full roles ty ri ci t id nx log u cur Hc Heq)|].
      split; [reflexivity|]. split; [reflexivity|].
      split; [unfold outstanding, pausing;
              cbn [host Timers.pending Timers.now map Timers.due Timers.cb];
              repeat f_equal; lia|].
      split; [apply step_pause|].
      cbn [ticking host hooks Timers.now]. split; [lia | reflexivity].
Qed.

Lemma typewriter_tick_timing_witness :
  exists w',
    step ["A"%string] (mount ["A"%string]) = Some w'
    /\ Timers.now (host w') = 100
    /\ charIdx (hooks w') = 1
    /\ typed (hooks w') = "A"%string.
Proof.
  destruct (typewriter_tick_timing ["A"%string] init 0 1%nat 2%nat [] 0%nat "A"%string)
    as [_ [_ (w' & Hs & Ht & Hh & _)]].
  - reflexivity.
  - cbn. lia.
  - exists w'. rewrite Hh. cbn. auto.
Defined.

(** C6 as the specification words it, refuted: in PausedFull nothing of
    1800ms is pending when the state is entered. With the single role "A",
    the first tick types the only character; the timer then pending is the
    next 100ms tick and no [setDeleting(true)] timer exists yet; [deleting]
    becomes true two firings and 1900ms later. *)
Lemma pause_not_scheduled_on_entry :
  exists w,
    run ["A"%string] 1 (mount ["A"%string]) = Some w
    /\ phase "A" (hooks w) = PausedFull
    /\ outstanding w
       = [(100, Tick {| current := Some "A"%string; c_charIdx := 1;
                        c_deleting := false |})]
    /\ ~ (exists x, In x (Timers.pending (host w))
                    /\ Timers.cb x = Pause
                    /\ Timers.due x = Timers.now (host w) + 1800)
    /\ exists w2,
        run ["A"%string] 2 w = Some w2
        /\ deleting (hooks w2) = true
        /\ Timers.now (host w2) = Timers.now (host w) + 1900.
Proof.
  eexists. split; [reflexivity|]. split; [reflexivity|]. split; [reflexivity|].
  split.
  - intros (x & [<-|[]] & Hcb & _). discriminate Hcb.
  - eexists. split; [reflexivity|]. split; reflexivity.
Qed.

End TypewriterClaims.

(** ** The reveal flag *)

Section RevealFacts.
Import Reveal.

Lemma visible_stays (ev : Event) (w : World) :
  visible w = true -> visible (apply ev w) = true.
Proof.
  intros Hv. destruct ev as [e rest|]; cbn.
  - destruct (observing (obs w)); [|exact Hv].
    unfold callback. destruct (isIntersecting e); [|exact Hv].
    cbn. now destruct (mounted w).
  - unfold unmount. now destruct (mounted w).
Qed.

Lemma visible_stays_exec (evs : list Event) (w : World) :
  visible w = true -> visible (exec evs w) = true.
Proof.
  revert w. induction evs as [|ev evs IH]; intros w Hv; [exact Hv|].
  cbn. apply IH. now apply visible_stays.
Qed.

Lemma not_observing (o : Observer) : targets o = [] -> observing o = false.
Proof. unfold observing. now intros ->. Qed.

Lemma changes_cons (a b x y : bool) (l : list bool) :
  changes a b (x :: y :: l)
  = ((if Bool.eqb x a && Bool.eqb y b then 1 else 0) + changes a b (y :: l))%nat.
Proof. reflexivity. Qed.

Lemma trace_cons (ev : Event) (evs : list Event) (w : World) :
  exists l, trace (ev :: evs) w = visible w :: visible (apply ev w) :: l
            /\ trace evs (apply ev w) = visible (apply ev w) :: l.
Proof. cbn [trace]. destruct evs; eexists; split; reflexivity. Qed.

Lemma trace_all_true (evs : list Event) (w : World) :
  visible w = true ->
  changes false true (trace evs w) = O /\ changes true false (trace evs w) = O.
Proof.
  revert w. induction evs as [|ev evs IH]; intros w Hv; [now cbn|].
  pose proof (visible_stays ev w Hv) as Hv'.
  destruct (IH _ Hv') as [H1 H2].
  destruct (trace_cons ev evs w) as (l & -> & Hl). rewrite Hl in H1, H2.
  rewrite !changes_cons, H1, H2, Hv, Hv'. now cbn.
Qed.

Lemma trace_changes (evs : list Event) (w : World) :
  (changes false true (trace evs w) <= 1)%nat
  /\ changes true false (trace evs w) = O.
Proof.
  revert w. induction evs as [|ev evs IH]; intros w; [cbn; auto|].
  destruct (visible w) eqn:Hv.
  - destruct (trace_all_true (ev :: evs) w Hv) as [-> ->]. auto.
  - destruct (trace_cons ev evs w) as (l & -> & Hl).
    rewrite !changes_cons, Hv.
    destruct (visible (apply ev w)) eqn:Hv'.
    + destruct (trace_all_true evs _ Hv') as [H1 H2].
      rewrite Hl in H1, H2. rewrite H1, H2. cbn. auto.
    + destruct (IH (apply ev w)) as [H1 H2].
      rewrite Hl in H1, H2. cbn. auto.
Qed.

Lemma settled_mount (r : option Element) : settled (mount r).
Proof. unfold settled, mount. cbn. repeat split; auto; discriminate. Qed.

Lemma settled_apply (ev : Event) (w : World) : settled w -> settled (apply ev w).
Proof.
  intros Hs. pose proof Hs as (H1 & H2 & H3).
  destruct ev as [e rest|]; cbn [apply].
  - destruct (observing (obs w)) eqn:Ho; [|exact Hs].
    unfold callback. destruct (isIntersecting e); [|exact Hs].
    assert (Hm : mounted w = true).
    { destruct (mounted w); [reflexivity|].
      rewrite (not_observing _ (H2 eq_refl)) in Ho. discriminate. }
    assert (Hv : visible w = false).
    { destruct (visible w); [|reflexivity].
      rewrite (not_observing _ (H1 eq_refl)) in Ho. discriminate. }
    unfold settled, obs_disconnect, setVisible.
    cbn [visible obs mounted disconnects disconnect targets].
    rewrite Hm, (H3 Hm), Hv. now repeat split.
  - unfold unmount. destruct (mounted w) eqn:Hm; [|exact Hs].
    unfold settled, obs_disconnect.
    cbn [visible obs mounted disconnects disconnect targets].
    repeat split; auto. discriminate.
Qed.

Lemma settled_exec (evs : list Event) (w : World) :
  settled w -> settled (exec evs w).
Proof.
  revert w. induction evs as [|ev evs IH]; intros w Hs; [exact Hs|].
  cbn. apply IH. now apply settled_apply.
Qed.

(** Without a target nothing is delivered, and the flag keeps its value. *)
Lemma idle_exec (evs : list Event) (w : World) :
  targets (obs w) = [] -> visible (exec evs w) = visible w.
Proof.
  revert w. induction evs as [|ev evs IH]; intros w Ht; [reflexivity|].
  cbn [exec fold_left]. fold (exec evs (apply ev w)).
  destruct ev as [e rest|]; cbn [apply].
  - rewrite (not_observing _ Ht). now apply IH.
  - unfold unmount. destruct (mounted w); [|now apply IH].
    rewrite IH; reflexivity.
Qed.

(** The flag of a watched region at the end is the disjunction of what was
    reported during its lifetime. *)
Lemma watched_exec (evs : list Event) (w : World) :
  mounted w = true -> observing (obs w) = true -> visible w = false ->
  visible (exec evs w) = existsb reports_intersection (lifetime evs).
Proof.
  revert w. induction evs as [|ev evs IH]; intros w Hm Ho Hv; [exact Hv|].
  cbn [exec fold_left]. fold (exec evs (apply ev w)).
  destruct ev as [e rest|]; cbn [apply lifetime existsb reports_intersection].
  - rewrite Ho. unfold callback. destruct (isIntersecting e) eqn:Hi.
    + cbn [orb]. apply visible_stays_exec. cbn. now rewrite Hm.
    + cbn [orb]. now apply IH.
  - rewrite idle_exec; unfold unmount; rewrite Hm; [exact Hv | reflexivity].
Qed.


Lemma unmount_twice (w : World) : unmount (unmount w) = unmount w.
Proof.
  unfold unmount. destruct (mounted w) eqn:E; cbn [mounted]; [reflexivity|].
  now rewrite E.
Qed.

Lemma append_length (a b : string) :
  String.length (a ++ b) = (String.length a + String.length b)%nat.
Proof. induction a as [|c a IH]; cbn; [reflexivity | now rewrite IH]. Qed.

Lemma strip_suffix_app (suf x : string) :
  strip_suffix suf (x ++ suf) = Some x.
Proof.
  induction x as [|c x IH]; cbn [append strip_suffix].
  - destruct suf; cbn; [reflexivity|]. now rewrite Ascii.eqb_refl, String.eqb_refl.
  - assert (E : String.eqb (String c (x ++ suf)) suf = false).
    { apply String.eqb_neq. intros H.
      apply (f_equal String.length) in H. cbn in H.
      rewrite append_length in H. lia. }
    destruct suf as [|a suf]; [cbn; now rewrite IH|].
    unfold strip_suffix at 1. fold strip_suffix. rewrite E, IH. reflexivity.
Qed.

Lemma digits_show (d : N) : digits (JS.show (Z.of_N d)) = Some (Z.of_N d).
Proof.
  unfold digits, JS.show.
  assert (E : Z.to_int (Z.of_N d) = Decimal.Pos (N.to_uint d)) by now destruct d.
  rewrite E. cbn [NilZero.string_of_int].
  rewrite NilZero.usu.
  - cbn. now rewrite DecimalN.Unsigned.of_to.
  - destruct d; [discriminate | apply DecimalPos.Unsigned.to_uint_nonnil].
Qed.

(** The flag rises exactly once in a run that ends visible, and never in
    one that does not. *)
Lemma changes_exact (evs : list Event) (w : World) :
  changes false true (trace evs w)
  = if visible w then O else if visible (exec evs w) then 1%nat else O.
Proof.
  revert w. induction evs as [|ev evs IH]; intros w.
  - cbn. now destruct (visible w).
  - destruct (visible w) eqn:Hv.
    + now destruct (trace_all_true (ev :: evs) w Hv) as [-> _].
    + destruct (trace_cons ev evs w) as (l & -> & Hl).
      rewrite changes_cons, Hv. cbn [exec fold_left].
      fold (exec evs (apply ev w)).
      specialize (IH (apply ev w)). rewrite Hl in IH. rewrite IH.
      destruct (visible (apply ev w)) eqn:Hv'.
      * now rewrite (visible_stays_exec evs _ Hv').
      * reflexivity.
Qed.

Lemma threshold_apply (ev : Event) (w : World) :
  threshold (obs (apply ev w)) = threshold (obs w).
Proof.
  destruct ev as [e rest|]; cbn [apply].
  - destruct (observing (obs w)); [|reflexivity].
    unfold callback. now destruct (isIntersecting e).
  - unfold unmount. now destruct (mounted w).
Qed.

Lemma threshold_exec (evs : list Event) (w : World) :
  threshold (obs (exec evs w)) = threshold (obs w).
Proof.
  revert w. induction evs as [|ev evs IH]; intros w; [reflexivity|].
  cbn [exec fold_left]. fold (exec evs (apply ev w)).
  now rewrite IH, threshold_apply.
Qed.

Lemma time_of_show (d : Z) :
  0 <= d -> css_time_ms (JS.show d ++ "ms") = Some d.
Proof.
  intros Hd. unfold css_time_ms. rewrite strip_suffix_app.
  rewrite <- (Z2N.id d Hd) at 1 2. rewrite digits_show. now rewrite Z2N.id.
Qed.

End RevealFacts.

Lemma append_assoc (a b c : string) : ((a ++ b) ++ c = a ++ (b ++ c))%string.
Proof. induction a as [|x a IH]; cbn; [reflexivity | now rewrite IH]. Qed.

(** ** The reveal hook: the claims *)

Section RevealClaims.
Import Reveal.



(** C7 - Output contract of [Reveal]. The observer is created with
    threshold 0.12 and keeps it. In every state the wrapper's style is a
    function of the flag, with the caller's delay or, when the caller
    gives none, with delay 0: opacity 0 and [translateY(32px)] while the
    flag is false, opacity 1 and [translateY(0)] once it is true. Its
    transition lists opacity and transform, each over [0.7s], that is
    700ms, with the delay in milliseconds. Along any run the flag, and so
    the style, changes exactly once, from hidden to shown, when the run
    ends visible, and never otherwise; a watched region ends visible
    exactly when a report before the unmount said it intersects. The
    delay is a safe integer that is not negative. *)
Theorem reveal_output_contract (r : option Element) (d : Z) (evs : list Event) :
  0 <= d <= JS.max_safe_integer ->
  let w := exec evs (mount r) in
  threshold (obs (mount r)) = 0.12%Q
  /\ threshold (obs w) = 0.12%Q
  /\ (forall w', Reveal None w' = Reveal_style (visible w') 0)
  /\ (forall w', Reveal (Some d) w' = Reveal_style (visible w') d)
  /\ Reveal None (mount r) = Reveal_style false 0
  /\ opacity (Reveal_style false d) = 0
  /\ transform (Reveal_style false d) = "translateY(32px)"%string
  /\ opacity (Reveal_style true d) = 1
  /\ transform (Reveal_style true d) = "translateY(0)"%string
  /\ opacity (Reveal (Some d) w) = (if visible w then 1 else 0)
  /\ opacity (Reveal None w) = (if visible w then 1 else 0)
  /\ (forall v,
         transition (Reveal_style v d)
         = ("opacity " ++ "0.7s" ++ " ease " ++ (JS.show d ++ "ms") ++ ", "
              ++ "transform " ++ "0.7s" ++ " ease " ++ (JS.show d ++ "ms"))%string)
  /\ transition (Reveal None w)
     = "opacity 0.7s ease 0ms, transform 0.7s ease 0ms"%string
  /\ css_time_ms "0.7s" = Some 700
  /\ css_time_ms (JS.show d ++ "ms") = Some d
  /\ changes false true (trace evs (mount r)) = (if visible w then 1%nat else O)
  /\ changes true false (trace evs (mount r)) = O
  /\ visible w = match r with
                 | Some _ => existsb reports_intersection (lifetime evs)
                 | None => false
                 end.
Proof.
  intros Hd w.
  split; [now destruct r|].
  split; [subst w; rewrite threshold_exec; now destruct r|].
  do 7 (split; [reflexivity|]).
  split; [unfold Reveal, Reveal_style; cbn [opacity]; reflexivity|].
  split; [unfold Reveal, Reveal_style; cbn [opacity]; reflexivity|].
  split.
  { intros v. cbn [Reveal_style transition append].
    do 18 f_equal. now rewrite append_assoc. }
  split; [reflexivity|].
  split; [reflexivity|].
  split; [apply time_of_show; lia|].
  split; [subst w; rewrite changes_exact; reflexivity|].
  split; [apply trace_changes|].
  subst w. destruct r as [el|].
  - now apply watched_exec.
  - now rewrite idle_exec.
Qed.

Lemma reveal_output_contract_witness :
  let w := exec [Notify {| isIntersecting := true; intersectionRatio := 1 |} []]
                (mount (Some 1%nat)) in
  Reveal (Some 150) (mount (Some 1%nat))
  = {| opacity := 0; transform := "translateY(32px)";
       transition := "opacity 0.7s ease 150ms, transform 0.7s ease 150ms" |}
  /\ opacity (Reveal (Some 150) w) = 1
  /\ css_time_ms (JS.show 150 ++ "ms") = Some 150.
Proof.
  destruct (reveal_output_contract (Some 1%nat) 150
              [Notify {| isIntersecting := true; intersectionRatio := 1 |} []])
    as (_ & _ & _ & H4 & _ & _ & _ & _ & _ & H10 & _ & _ & _ & _ & H15 & _).
  - unfold JS.max_safe_integer. lia.
  - split; [rewrite H4; reflexivity|]. split; [exact H10 | exact H15].
Defined.

(** C8 - The watcher is released. After the unmount the observer watches
    nothing, whether or not the flag ever became true. [disconnect] on an
    observer that was disconnected before gives the same observer, and so
    does a second unmount. Unmounting a visible component is the second
    call of [disconnect] and leaves the observer as it was; unmounting a
    hidden one is the first. *)
Theorem reveal_watcher_released (r : option Element) (evs : list Event) :
  let w := exec evs (mount r) in
  exec (evs ++ [Unmount]) (mount r) = unmount w
  /\ targets (obs (unmount w)) = []
  /\ observing (obs (unmount w)) = false
  /\ (forall o, disconnect (disconnect o) = disconnect o)
  /\ unmount (unmount w) = unmount w
  /\ (if mounted w
      then disconnects (unmount w) = (if visible w then 2 else 1)%nat
           /\ (if visible w then obs (unmount w) = obs w else True)
      else True).
Proof.
  intros w.
  destruct (settled_exec evs (mount r) (settled_mount r)) as (Hv & Hm & Hd).
  fold w in Hv, Hm, Hd.
  assert (Ht : targets (obs (unmount w)) = []).
  { unfold unmount. destruct (mounted w) eqn:E; [reflexivity | now apply Hm]. }
  split; [unfold exec; now rewrite fold_left_app|].
  split; [exact Ht|]. split; [now apply not_observing|].
  split; [reflexivity|]. split.
  - apply unmount_twice.
  - destruct (mounted w) eqn:E; [|exact I].
    unfold unmount. rewrite E. cbn [disconnects obs obs_disconnect].
    rewrite (Hd eq_refl). destruct (visible w); split; auto.
    specialize (Hv eq_refl). destruct (obs w) as [th tg]. cbn in Hv. now subst.
Qed.

End RevealClaims.

(** ** The theme *)

Section ThemeClaims.
Import Theme.

(** C10 - Theme toggle. The flag starts as dark; toggling flips it, and
    toggling twice gives it back; the palette [App] computes, every palette
    handed to a component, and the one [Nav] computes from the flag it is
    handed, is [T.dark] when the flag is set and [T.light] otherwise. *)
Theorem theme_toggle_involution (dark : bool) :
  initial = true
  /\ toggle (toggle dark) = dark
  /\ toggle dark <> dark
  /\ App_c dark = (if dark then T_dark else T_light)
  /\ Nav_c dark = App_c dark
  /\ Forall (fun cp => match palette_of (snd cp) with
                       | Some c => c = if dark then T_dark else T_light
                       | None => True
                       end)
            (App dark)
  /\ T_dark <> T_light.
Proof.
  split; [reflexivity|]. split; [apply negb_involutive|].
  split; [destruct dark; discriminate|].
  split; [reflexivity|]. split; [reflexivity|].
  split; [|discriminate].
  unfold App. repeat constructor.
Qed.

End ThemeClaims.

(** ** The contact form *)

Section ContactClaims.
Import Contact.

(** C9 - Submitting the contact form. Nothing leaves the page: the
    handler prevents the browser's own submission and does no I/O itself.
    On the page's state only the contact form changes: its three fields
    are empty, [sent] is true and one timer of 4000ms is added; the theme,
    the typewriter and the reveal flags are as before. That timer's
    callback sets [sent] to false and touches nothing else. *)
Theorem contact_submit_frame (s : Page.State) :
  let s' := Page.submit s in
  let c := Page.contact s in
  let c' := Page.contact s' in
  io c' = io c
  /\ defaultPrevented (fst (handleSubmit {| defaultPrevented := false |} c)) = true
  /\ form c' = {| name := ""; email := ""; message := "" |}
  /\ sent c' = true
  /\ Page.dark s' = Page.dark s
  /\ Page.hero s' = Page.hero s
  /\ Page.reveals s' = Page.reveals s
  /\ Timers.pending (host c')
     = (Timers.pending (host c)
          ++ [ {| Timers.tid := Timers.nextId (host c);
                  Timers.due := Timers.now (host c) + 4000;
                  Timers.cb := Unsent |} ])%list
  /\ (forall w, fire Unsent w
                = {| form := form w; sent := false; host := host w; io := io w |})
  /\ match Timers.pending (host c) with
     | [] =>
         exists s'',
           Page.contact_step s' = Some s''
           /\ Timers.now (host (Page.contact s'')) = Timers.now (host c) + 4000
           /\ sent (Page.contact s'') = false
           /\ form (Page.contact s'') = form c'
           /\ io (Page.contact s'') = io c
           /\ Timers.pending (host (Page.contact s'')) = []
           /\ Page.dark s'' = Page.dark s
           /\ Page.hero s'' = Page.hero s
           /\ Page.reveals s'' = Page.reveals s
     | _ :: _ => True
     end.
Proof.
  intros s' c c'. subst s' c'. fold c.
  do 9 (split; [reflexivity|]).
  destruct (Timers.pending (host c)) eqn:Hp; [|exact I].
  unfold Page.contact_step, Page.submit, step, submit, handleSubmit.
  cbn [Page.contact fst snd preventDefault defaultPrevented setForm setSent
       host form sent io Timers.setTimeout]. fold c.
  rewrite Hp. cbn [app]. destruct (host c) as [t nx p]. cbn in Hp. subst p.
  cbn [Timers.now Timers.nextId].
  rewrite pop_single. eexists. split; [reflexivity|].
  cbn [Page.contact Page.dark Page.hero Page.reveals fire setSent host form
       sent io Timers.now Timers.pending Timers.cb Timers.due].
  rewrite Z.max_r by lia. repeat split.
Qed.

End ContactClaims.

(* ================================================================== *)
(** * Further properties of the code *)

(** ** The typewriter: timers, exceptions, unmount *)

Section TypewriterQueue.
Import Typewriter TypewriterStates Loop.
Variable roles : list string.

Lemma calm_ticking h t id nx log : calm (ticking roles h t id nx log O).
Proof. unfold calm. cbn. auto. Qed.

Lemma calm_pausing h t id pid nx log : calm (pausing h t id pid nx log O).
Proof. unfold calm. cbn. auto. Qed.

Lemma hooks_unmount w : hooks (unmount w) = hooks w.
Proof.
  unfold unmount. destruct (mounted w); [|reflexivity].
  unfold cleanup. now destruct (effectTimer w).
Qed.

Lemma mounted_unmount w : mounted (unmount w) = false.
Proof. unfold unmount. destruct (mounted w) eqn:E; [reflexivity | exact E]. Qed.

(** A Hero that is gone: either nothing is pending, or the one pause that
    is fires and leaves nothing. *)
Lemma gone_step w :
  mounted w = false -> calm w ->
  (step roles w = None /\ Timers.pending (host w) = [])
  \/ (exists w', step roles w = Some w'
                 /\ Timers.pending (host w') = []
                 /\ mounted w' = false /\ uncaught w' = O
                 /\ hooks w' = hooks w).
Proof.
  intros Hm (Hu & Hlen & Hp). rewrite Hm in Hp. unfold only_pauses in Hp.
  destruct w as [h m e [t nx p] l u]. cbn in Hm, Hu, Hlen, Hp. subst m u.
  destruct p as [|x [|y p]]; [left | right | cbn in Hlen; lia].
  - now split.
  - inversion Hp as [|x' l' Hx _]; subst.
    unfold step. cbn [host]. rewrite pop_single. rewrite Hx.
    eexists. split; [reflexivity|]. now cbn.
Qed.

Lemma calm_step w w' :
  Inv roles w -> calm w -> step roles w = Some w' -> calm w'.
Proof.
  intros HI Hc Hs.
  destruct HI as [h t id nx log u G | h t id pid nx log u G Hd | w Hm G].
  - assert (u = O) by (destruct Hc as [Hu _]; exact Hu). subst u.
    destruct h as [ty ri ci d]. destruct G as (cur & Hcur & Hb & Ht).
    cbn in Hcur, Hb, Ht.
    destruct d.
    + destruct (Z_lt_le_dec 0 ci) as [Hpos|Hle].
      * rewrite (step_deleting roles ty ri ci t id nx log O cur Hcur Hpos) in Hs.
        injection Hs as <-. apply calm_ticking.
      * rewrite (step_empty roles ty ri ci t id nx log O Hle) in Hs.
        injection Hs as <-. apply calm_ticking.
    + destruct (Z_lt_le_dec ci (JS.length cur)) as [Hlt|Hge].
      * rewrite (step_typing roles ty ri ci t id nx log O cur Hcur Hlt) in Hs.
        injection Hs as <-. apply calm_ticking.
      * assert (Heq : ci = JS.length cur) by lia.
        rewrite (step_full roles ty ri ci t id nx log O cur Hcur Heq) in Hs.
        injection Hs as <-. apply calm_pausing.
  - assert (u = O) by (destruct Hc as [Hu _]; exact Hu). subst u.
    destruct h as [ty ri ci d]. cbn in Hd. subst d.
    rewrite step_pause in Hs. injection Hs as <-. apply calm_ticking.
  - destruct (gone_step w Hm Hc) as [[Hn _] | (w1 & Hs1 & Hp & Hm1 & Hu1 & _)];
      [congruence|].
    rewrite Hs in Hs1. injection Hs1 as <-.
    unfold calm, only_pauses. rewrite Hm1, Hp, Hu1. cbn. auto.
Qed.

Lemma calm_unmount w : Inv roles w -> calm w -> calm (unmount w).
Proof.
  intros HI Hc.
  destruct HI as [h t id nx log u G | h t id pid nx log u G Hd | w Hm G].
  - destruct Hc as [Hu _]. cbn in Hu. subst u.
    unfold calm, only_pauses. cbn. rewrite Nat.eqb_refl. cbn. auto.
  - destruct Hc as [Hu _]. cbn in Hu. subst u.
    unfold calm, only_pauses. cbn. destruct (Nat.eqb pid id); cbn; auto.
  - unfold unmount. now rewrite Hm.
Qed.

Lemma calm_exec evs w :
  Inv roles w -> calm w -> calm (exec roles evs w).
Proof.
  revert w. induction evs as [|e evs IH]; intros w HI Hc; [exact Hc|].
  cbn [exec fold_left]. fold (exec roles evs (apply roles e w)).
  destruct e; cbn [apply].
  - destruct (step roles w) as [w'|] eqn:Hs; [|now apply IH].
    apply IH; [eapply Inv_step; eauto | eapply calm_step; eauto].
  - apply IH; [now apply Inv_unmount | now apply calm_unmount].
Qed.

Lemma reachable (evs : list Event) :
  0 < JS.alength roles ->
  Inv roles (exec roles evs (mount roles))
  /\ calm (exec roles evs (mount roles)).
Proof.
  intros Hne.
  assert (Hroles : roles <> []) by (destruct roles; [cbn in Hne; lia | discriminate]).
  assert (HI : Inv roles (mount roles))
    by (rewrite mount_ticking; constructor; now apply good_init).
  split; [now apply Inv_exec|].
  apply calm_exec; [exact HI|]. rewrite mount_ticking. apply calm_ticking.
Qed.

(** One firing changes the text by at most one character, and the role
    only while the text is empty. *)
Lemma step_text w w' :
  Inv roles w -> step roles w = Some w' ->
  Z.abs (JS.length (typed (hooks w')) - JS.length (typed (hooks w))) <= 1
  /\ (roleIdx (hooks w') = roleIdx (hooks w)
      \/ (typed (hooks w) = ""%string /\ typed (hooks w') = ""%string)).
Proof.
  intros HI Hs.
  destruct HI as [h t id nx log u G | h t id pid nx log u G Hd | w Hm G].
  - destruct h as [ty ri ci d]. destruct G as (cur & Hcur & Hb & Ht).
    cbn in Hcur, Hb, Ht.
    assert (Hlen : forall e, 0 <= e <= JS.length cur ->
                             JS.length (JS.slice0 cur e) = e).
    { intros e He. rewrite slice0_substring by exact He. unfold JS.length in *.
      rewrite substring_length by lia. lia. }
    destruct d.
    + destruct (Z_lt_le_dec 0 ci) as [Hpos|Hle].
      * rewrite (step_deleting roles ty ri ci t id nx log u cur Hcur Hpos) in Hs.
        injection Hs as <-. cbn [ticking hooks typed roleIdx].
        rewrite Ht, !Hlen by lia. split; [lia | now left].
      * rewrite (step_empty roles ty ri ci t id nx log u Hle) in Hs.
        injection Hs as <-. cbn [ticking hooks typed roleIdx].
        split; [lia|]. right. assert (ci = 0) by lia. subst ci.
        rewrite Ht, slice0_zero. auto.
    + destruct (Z_lt_le_dec ci (JS.length cur)) as [Hlt|Hge].
      * rewrite (step_typing roles ty ri ci t id nx log u cur Hcur Hlt) in Hs.
        injection Hs as <-. cbn [ticking hooks typed roleIdx].
        rewrite Ht, !Hlen by lia. split; [lia | now left].
      * assert (Heq : ci = JS.length cur) by lia.
        rewrite (step_full roles ty ri ci t id nx log u cur Hcur Heq) in Hs.
        injection Hs as <-. cbn [ticking pausing hooks typed roleIdx].
        split; [lia | now left].
  - destruct h as [ty ri ci d]. cbn in Hd. subst d.
    rewrite step_pause in Hs. injection Hs as <-.
    cbn [ticking pausing hooks typed roleIdx]. split; [lia | now left].
  - destruct (step_unmounted roles w w' Hm Hs) as [_ ->].
    split; [lia | now left].
Qed.

(** While mounted the next firing is between 60ms and 1800ms away. *)
Lemma step_clock w :
  Inv roles w -> mounted w = true ->
  exists w', step roles w = Some w'
             /\ Timers.now (host w) + 60 <= Timers.now (host w')
             /\ Timers.now (host w') <= Timers.now (host w) + 1800.
Proof.
  intros HI Hm.
  destruct HI as [h t id nx log u G | h t id pid nx log u G Hd | w Hg G].
  - destruct h as [ty ri ci d]. destruct G as (cur & Hc & Hb & Ht).
    cbn in Hc, Hb, Ht.
    destruct d.
    + destruct (Z_lt_le_dec 0 ci) as [Hpos|Hle].
      * rewrite (step_deleting roles ty ri ci t id nx log u cur Hc Hpos).
        eexists; split; [reflexivity|]. cbn. lia.
      * rewrite (step_empty roles ty ri ci t id nx log u Hle).
        eexists; split; [reflexivity|]. cbn. lia.
    + destruct (Z_lt_le_dec ci (JS.length cur)) as [Hlt|Hge].
      * rewrite (step_typing roles ty ri ci t id nx log u cur Hc Hlt).
        eexists; split; [reflexivity|]. cbn. lia.
      * assert (Heq : ci = JS.length cur) by lia.
        rewrite (step_full roles ty ri ci t id nx log u cur Hc Heq).
        eexists; split; [reflexivity|]. cbn. lia.
  - destruct h as [ty ri ci d]. cbn in Hd. subst d.
    rewrite step_pause. eexists; split; [reflexivity|]. cbn. lia.
  - congruence.
Qed.

End TypewriterQueue.

(** ** The typewriter: one pass through all roles *)

Section TypewriterLoop.
Import Typewriter TypewriterStates Loop.
Variable roles : list string.

Lemma index_app_mid (pre suf : list string) (r : string) :
  JS.index (pre ++ r :: suf) (Z.of_nat (List.length pre)) = Some r.
Proof.
  unfold JS.index.
  destruct (Z.of_nat (List.length pre) <? 0) eqn:E; [apply Z.ltb_lt in E; lia|].
  rewrite Nat2Z.id, nth_error_app2 by lia. now rewrite Nat.sub_diag.
Qed.

Lemma loop_from (suf : list string) : forall pre w,
  suf <> [] -> roles = (pre ++ suf)%list ->
  ready roles (Z.of_nat (List.length pre)) w ->
  exists w',
    run roles (firings suf) w = Some w'
    /\ ready roles 0 w'
    /\ Timers.now (host w') = Timers.now (host w) + ms suf.
Proof.
  induction suf as [|r rest IH]; intros pre w Hne Hroles Hr; [congruence|].
  assert (Hc : JS.index roles (Z.of_nat (List.length pre)) = Some r)
    by (rewrite Hroles; apply index_app_mid).
  destruct (cycle_once roles _ r w Hc Hr) as (w1 & Hrun & Hr1 & Ht1).
  assert (Hn : JS.alength roles
               = Z.of_nat (List.length pre) + 1 + Z.of_nat (List.length rest)).
  { unfold JS.alength. rewrite Hroles, length_app. cbn [List.length]. lia. }
  cbn [firings ms fold_right]. fold (firings rest). fold (ms rest).
  rewrite run_app, Hrun.
  destruct rest as [|r' rest'].
  - cbn [firings ms fold_right run]. exists w1. split; [reflexivity|]. split.
    + cbn [List.length] in Hn. rewrite Hn in Hr1.
      replace (Z.of_nat (List.length pre) + 1 + Z.of_nat 0)
        with (Z.of_nat (List.length pre) + 1) in Hr1 by lia.
      now rewrite Z_mod_same_full in Hr1.
    + lia.
  - rewrite Z.mod_small in Hr1 by (cbn [List.length] in Hn; lia).
    destruct (IH (pre ++ [r])%list w1) as (w' & Hrun' & Hr' & Ht').
    + discriminate.
    + now rewrite <- app_assoc.
    + rewrite length_app. cbn [List.length].
      now replace (Z.of_nat (List.length pre + 1)) with (Z.of_nat (List.length pre) + 1) by lia.
    + exists w'. split; [exact Hrun'|]. split; [exact Hr'|]. lia.
Qed.

End TypewriterLoop.

(** ** The typewriter: further properties *)

Section TypewriterMore.
Import Typewriter TypewriterStates Loop.

(** X1 - One timer at a time. With a role list of non-empty length, in
    every state reached from the mount by timer firings and an unmount, at
    most one timer is pending; a mounted Hero has exactly one, and what is
    pending for a Hero that is gone is a pause. *)
Theorem typewriter_single_timer (roles : list string) (evs : list Event) :
  0 < JS.alength roles ->
  let w := exec roles evs (mount roles) in
  (List.length (Timers.pending (host w)) <= 1)%nat
  /\ (if mounted w
      then List.length (Timers.pending (host w)) = 1%nat
      else only_pauses w).
Proof.
  intros Hne w. destruct (reachable roles evs Hne) as [_ (_ & H1 & H2)].
  now split.
Qed.

Lemma typewriter_single_timer_witness :
  let w := exec page_roles [Fire; Fire; Unmount; Fire] (mount page_roles) in
  (List.length (Timers.pending (host w)) <= 1)%nat
  /\ (if mounted w
      then List.length (Timers.pending (host w)) = 1%nat
      else only_pauses w).
Proof.
  apply (typewriter_single_timer page_roles [Fire; Fire; Unmount; Fire]).
  reflexivity.
Defined.

(** X2 - No exception. With a role list of non-empty length no timer
    callback ever reads [length] or calls [slice] on an undefined role:
    no state reached from the mount has an uncaught error. *)
Theorem typewriter_never_throws (roles : list string) (evs : list Event) :
  0 < JS.alength roles ->
  uncaught (exec roles evs (mount roles)) = O.
Proof.
  intros Hne. now destruct (reachable roles evs Hne) as [_ (H & _)].
Qed.

Lemma typewriter_never_throws_witness :
  uncaught (exec page_roles (repeat Fire 40) (mount page_roles)) = O.
Proof.
  apply (typewriter_never_throws page_roles (repeat Fire 40)). reflexivity.
Defined.

(** X3 - Empty role list. The first tick reads [length] of an undefined
    role and throws; no setter was called and no timer is scheduled any
    more, so nothing ever fires again: whatever happens afterwards, the
    cells keep their initial values. *)
Theorem typewriter_empty_list (evs : list Event) :
  (exists w1,
      step [] (mount []) = Some w1
      /\ uncaught w1 = 1%nat
      /\ mounted w1 = true
      /\ Timers.pending (host w1) = []
      /\ step [] w1 = None)
  /\ hooks (exec [] evs (mount [])) = init
  /\ calls (exec [] evs (mount [])) = [].
Proof.
  split.
  { eexists. split; [reflexivity|]. repeat split. }
  assert (H : forall w,
             hooks w = init /\ calls w = []
             /\ (w = mount [] \/ Timers.pending (host w) = []) ->
             hooks (exec [] evs w) = init /\ calls (exec [] evs w) = []).
  { induction evs as [|e evs' IH]; intros w (Hh & Hc & Hw); [now split|].
    cbn [exec fold_left]. fold (exec [] evs' (apply [] e w)).
    apply IH. destruct e; cbn [apply].
    - destruct Hw as [-> | Hp].
      + vm_compute. auto.
      + unfold step, Timers.pop. rewrite Hp. cbn. auto.
    - destruct Hw as [-> | Hp].
      + vm_compute. auto.
      + unfold unmount. destruct (mounted w); [|auto].
        unfold cleanup. destruct (effectTimer w); cbn; rewrite ?Hp; auto. }
  apply H. repeat split. now left.
Qed.

(** X4 - After the unmount. Whatever happened before, once the Hero is
    unmounted and the timer still pending, if any, has fired, nothing is
    pending and nothing fires any more, and the cells are, and stay, what
    they were at the unmount. *)
Theorem typewriter_after_unmount
    (roles : list string) (evs more : list Event) :
  0 < JS.alength roles ->
  let w0 := exec roles evs (mount roles) in
  let w := exec roles (evs ++ [Unmount; Fire]) (mount roles) in
  Timers.pending (host w) = []
  /\ step roles w = None
  /\ hooks w = hooks w0
  /\ exec roles more w = w.
Proof.
  intros Hne w0 w. destruct (reachable roles evs Hne) as [HI Hc]. fold w0 in HI, Hc.
  assert (Hw : w = apply roles Fire (unmount w0)).
  { subst w w0. unfold exec. now rewrite fold_left_app. }
  assert (Hp : Timers.pending (host w) = []
               /\ hooks w = hooks w0 /\ mounted w = false).
  { rewrite Hw. cbn [apply].
    destruct (gone_step roles (unmount w0) (mounted_unmount w0)
                (calm_unmount roles w0 HI Hc))
      as [[Hn Hp] | (w' & Hs & Hp & Hm & _ & Hh)]; rewrite ?Hn, ?Hs.
    - rewrite Hp, hooks_unmount, mounted_unmount. auto.
    - rewrite Hp, Hh, hooks_unmount. auto. }
  destruct Hp as (Hp & Hh & Hm).
  assert (Hs : step roles w = None) by (unfold step, Timers.pop; now rewrite Hp).
  repeat split; auto.
  induction more as [|e more' IH]; [reflexivity|].
  cbn [exec fold_left]. fold (exec roles more' (apply roles e w)).
  destruct e; cbn [apply].
  - now rewrite Hs.
  - unfold unmount. now rewrite Hm.
Qed.

Lemma typewriter_after_unmount_witness :
  let w := exec page_roles (repeat Fire 17 ++ [Unmount; Fire]) (mount page_roles) in
  Timers.pending (host w) = [] /\ step page_roles w = None.
Proof.
  destruct (typewriter_after_unmount page_roles (repeat Fire 17) [Fire])
    as (H1 & H2 & _).
  - reflexivity.
  - split; [exact H1 | exact H2].
Defined.

(** X5 - One character at a time. In every reachable state a timer firing
    changes the length of the displayed text by at most one, and it moves
    to another role only when the text is empty before and after. *)
Theorem typewriter_one_character (roles : list string) (evs : list Event) :
  0 < JS.alength roles ->
  let w := exec roles evs (mount roles) in
  let w' := apply roles Fire w in
  Z.abs (JS.length (typed (hooks w')) - JS.length (typed (hooks w))) <= 1
  /\ (roleIdx (hooks w') = roleIdx (hooks w)
      \/ (typed (hooks w) = ""%string /\ typed (hooks w') = ""%string)).
Proof.
  intros Hne w w'. destruct (reachable roles evs Hne) as [HI _]. fold w in HI.
  subst w'. cbn [apply]. destruct (step roles w) as [w1|] eqn:Hs.
  - now apply (step_text roles w w1).
  - rewrite Z.sub_diag. cbn. split; [lia | now left].
Qed.

Lemma typewriter_one_character_witness :
  let w := exec page_roles (repeat Fire 5) (mount page_roles) in
  let w' := apply page_roles Fire w in
  Z.abs (JS.length (typed (hooks w')) - JS.length (typed (hooks w))) <= 1.
Proof.
  destruct (typewriter_one_character page_roles (repeat Fire 5)) as [H _].
  - reflexivity.
  - exact H.
Defined.

(** X6 - The animation is periodic. With a role list of non-empty length,
    after [2 * length + 3] timer firings per role the Hero is back at the
    start of the first role, [160 * length + 1960] milliseconds per role
    after the mount. *)
Theorem typewriter_full_loop (roles : list string) :
  0 < JS.alength roles ->
  exists w',
    run roles (firings roles) (mount roles) = Some w'
    /\ ready roles 0 w'
    /\ hooks w' = init
    /\ Timers.now (host w') = ms roles.
Proof.
  intros Hne.
  assert (Hroles : roles <> []) by (destruct roles; [cbn in Hne; lia | discriminate]).
  destruct (loop_from roles roles [] (mount roles) Hroles eq_refl)
    as (w' & Hrun & Hr & Ht).
  - exists 0, 1%nat, 2%nat, [], 0%nat. reflexivity.
  - exists w'. split; [exact Hrun|]. split; [exact Hr|]. split.
    + destruct Hr as (t & id & nx & log & u & ->). reflexivity.
    + rewrite Ht. reflexivity.
Qed.

Lemma typewriter_full_loop_witness :
  exists w',
    run page_roles 105 (mount page_roles) = Some w'
    /\ hooks w' = init
    /\ Timers.now (host w') = 13560.
Proof.
  destruct (typewriter_full_loop page_roles) as (w' & Hrun & _ & Hh & Ht).
  - reflexivity.
  - exists w'. split; [exact Hrun|]. split; [exact Hh | exact Ht].
Defined.

(** X7 - The clock of a mounted Hero. With a role list of non-empty
    length, in every reachable state of a mounted Hero the next timer
    fires, no sooner than 60ms and no later than 1800ms from now. *)
Theorem typewriter_next_firing (roles : list string) (evs : list Event) :
  0 < JS.alength roles ->
  let w := exec roles evs (mount roles) in
  if mounted w
  then exists w',
      step roles w = Some w'
      /\ Timers.now (host w) + 60 <= Timers.now (host w')
      /\ Timers.now (host w') <= Timers.now (host w) + 1800
  else True.
Proof.
  intros Hne w. destruct (reachable roles evs Hne) as [HI _]. fold w in HI.
  destruct (mounted w) eqn:Hm; [|exact I].
  now apply step_clock.
Qed.

Lemma typewriter_next_firing_witness :
  let w := exec page_roles (repeat Fire 16) (mount page_roles) in
  if mounted w
  then exists w',
      step page_roles w = Some w'
      /\ Timers.now (host w) + 60 <= Timers.now (host w')
      /\ Timers.now (host w') <= Timers.now (host w) + 1800
  else True.
Proof.
  apply (typewriter_next_firing page_roles (repeat Fire 16)). reflexivity.
Defined.

End TypewriterMore.

(** ** Nav *)

Section NavFacts.
Import Nav.

Lemma fresh_new (l : list nat) : existsb (Nat.eqb (fresh l)) l = false.
Proof.
  destruct (existsb (Nat.eqb (fresh l)) l) eqn:E; [|reflexivity].
  apply existsb_exists in E. destruct E as (x & Hin & Hx).
  apply Nat.eqb_eq in Hx. subst x.
  assert (H : Forall (fun k => (k <= list_max l)%nat) l) by now apply list_max_le.
  rewrite Forall_forall in H. specialize (H _ Hin). unfold fresh in H. lia.
Qed.

Lemma window_mount (others : list nat) :
  window (mount others) = (others ++ [fresh others])%list.
Proof.
  unfold mount. cbn [window]. unfold addEventListener. now rewrite fresh_new.
Qed.

Lemma remove_fresh (others : list nat) :
  removeEventListener (fresh others) (others ++ [fresh others]) = others.
Proof.
  unfold removeEventListener. rewrite filter_app. cbn. rewrite Nat.eqb_refl. cbn.
  rewrite app_nil_r. apply forallb_filter_id. apply forallb_forall.
  intros x Hin. apply negb_true_iff, Nat.eqb_neq. intros ->.
  pose proof (fresh_new others) as E.
  assert (existsb (Nat.eqb (fresh others)) others = true); [|congruence].
  apply existsb_exists. exists (fresh others). split; [exact Hin | apply Nat.eqb_refl].
Qed.

Lemma listening_mount (others : list nat) : listening (mount others).
Proof.
  split; [reflexivity|]. rewrite window_mount. cbn [mount h].
  rewrite existsb_app. cbn. rewrite Nat.eqb_refl. now rewrite orb_true_r.
Qed.

Lemma listening_apply (ev : Event) (w : World) :
  is_unmount ev = false -> listening w -> listening (apply ev w).
Proof.
  intros Hev [Hm Hl]. destruct ev; try discriminate; cbn [apply].
  - rewrite Hl. now split.
  - rewrite Hm. now split.
  - rewrite Hm. destruct (menuOpen w); now split.
Qed.

Lemma listening_exec (evs : list Event) (w : World) :
  existsb is_unmount evs = false -> listening w -> listening (exec evs w).
Proof.
  revert w. induction evs as [|ev evs IH]; intros w Hev Hl; [exact Hl|].
  cbn in Hev. apply orb_false_iff in Hev. destruct Hev as [H1 H2].
  cbn [exec fold_left]. apply IH; [exact H2 | now apply listening_apply].
Qed.

Lemma exec_app (a b : list Event) (w : World) :
  exec (a ++ b) w = exec b (exec a w).
Proof. unfold exec. now rewrite fold_left_app. Qed.

Lemma scrolled_exec (evs : list Event) : forall w acc,
  existsb is_unmount evs = false -> listening w ->
  scrolled w = match acc with Some y => gt y 40 | None => false end ->
  scrolled (exec evs w)
  = match fold_left (fun a ev => match ev with Scroll y => Some y | _ => a end)
                    evs acc with
    | Some y => gt y 40
    | None => false
    end.
Proof.
  induction evs as [|ev evs IH]; intros w acc Hev Hl Hs; [exact Hs|].
  cbn in Hev. apply orb_false_iff in Hev. destruct Hev as [H1 H2].
  cbn [exec fold_left].
  apply IH; [exact H2 | now apply listening_apply|].
  destruct Hl as [Hm Hl]. destruct ev; try discriminate; cbn [apply].
  - rewrite Hl. cbn. now rewrite Hm.
  - now rewrite Hm.
  - rewrite Hm. now destruct (menuOpen w).
Qed.

End NavFacts.

Section NavClaims.
Import Nav.

Lemma wired_apply (others : list nat) (ev : Event) (w : World) :
  wired others w -> wired others (apply ev w).
Proof.
  intros Hw. pose proof Hw as [Hh Hwin]. destruct ev; cbn [apply].
  - destruct (existsb (Nat.eqb (h w)) (window w)); exact Hw.
  - destruct (mounted w) eqn:Hm; [|exact Hw].
    unfold wired, setMenuOpen. cbn [h window mounted]. now rewrite Hm.
  - destruct (mounted w && menuOpen w) eqn:E; exact Hw.
  - unfold unmount. destruct (mounted w) eqn:Hm; [|exact Hw].
    unfold wired. cbn [h window mounted]. split; [exact Hh|].
    rewrite Hwin, Hh. apply remove_fresh.
Qed.

Lemma wired_exec (others : list nat) (evs : list Event) (w : World) :
  wired others w -> wired others (exec evs w).
Proof.
  revert w. induction evs as [|ev evs IH]; intros w Hw; [exact Hw|].
  cbn [exec fold_left]. apply IH. now apply wired_apply.
Qed.

Lemma menu_apply (ev : Event) (w1 w2 : World) :
  is_scroll ev = false ->
  menuOpen w1 = menuOpen w2 -> mounted w1 = mounted w2 ->
  menuOpen (apply ev w1) = menuOpen (apply ev w2)
  /\ mounted (apply ev w1) = mounted (apply ev w2).
Proof.
  intros Hev H1 H2.
  destruct w1 as [s1 m1 k1 h1 l1], w2 as [s2 m2 k2 h2 l2].
  cbn in H1, H2. subst m2 k2.
  destruct ev; try discriminate; unfold apply, unmount, setMenuOpen;
    cbn [mounted menuOpen]; destruct k1, m1; cbn; auto.
Qed.

Lemma menu_scroll (y : Q) (w : World) :
  menuOpen (apply (Scroll y) w) = menuOpen w
  /\ mounted (apply (Scroll y) w) = mounted w.
Proof.
  cbn [apply]. destruct (existsb (Nat.eqb (h w)) (window w)); now split.
Qed.

Lemma menu_without_scroll (evs : list Event) : forall w1 w2,
  menuOpen w1 = menuOpen w2 -> mounted w1 = mounted w2 ->
  menuOpen (exec (filter (fun ev => negb (is_scroll ev)) evs) w1)
  = menuOpen (exec evs w2).
Proof.
  induction evs as [|ev evs IH]; intros w1 w2 H1 H2; [exact H1|].
  cbn [filter]. destruct (is_scroll ev) eqn:Hs; cbn [negb exec fold_left].
  - destruct ev; try discriminate. destruct (menu_scroll y w2) as [M1 M2].
    apply IH; congruence.
  - destruct (menu_apply ev w1 w2 Hs H1 H2) as [M1 M2]. now apply IH.
Qed.

(** X8 - The scroll flag. Until the Nav is unmounted, [scrolled] says
    whether the page was last scrolled to a position beyond 40; it is
    false as long as no scroll event has arrived, wherever the page stands,
    and what happens to the menu in between does not matter. *)
Theorem nav_scrolled_last (others : list nat) (evs : list Event) :
  existsb is_unmount evs = false ->
  scrolled (exec evs (mount others))
  = match last_scroll evs with
    | Some y => gt y 40
    | None => false
    end
  /\ (match last_scroll evs with
      | Some y => gt y 40 = true <-> (40 < y)%Q
      | None => True
      end).
Proof.
  intros Hev. split.
  - apply scrolled_exec; [exact Hev | apply listening_mount | reflexivity].
  - destruct (last_scroll evs) as [y|]; [|exact I].
    unfold gt. rewrite negb_true_iff. split.
    + intros H. apply Qnot_le_lt. intros Hle.
      apply Qle_bool_iff in Hle. congruence.
    + intros H. destruct (Qle_bool y 40) eqn:E; [|reflexivity].
      apply Qle_bool_iff in E. apply Qlt_not_le in H. contradiction.
Qed.

Lemma nav_scrolled_last_witness :
  scrolled (exec [Scroll 10; Hamburger; Scroll 41; MenuLink; Scroll 40%Q]
                 (mount [7%nat]))
  = false
  /\ scrolled (exec [Scroll 40; Scroll (81 # 2)] (mount [7%nat])) = true.
Proof.
  split.
  - destruct (nav_scrolled_last [7%nat]
                [Scroll 10; Hamburger; Scroll 41; MenuLink; Scroll 40%Q])
      as [H _]; [reflexivity | exact H].
  - destruct (nav_scrolled_last [7%nat] [Scroll 40; Scroll (81 # 2)])
      as [H _]; [reflexivity | exact H].
Defined.

(** X9 - The scroll listener is released. Whatever happened before, after
    the unmount the window has the scroll listeners it had before the Nav
    was mounted, in the same order, and from then on no event changes the
    Nav's state. *)
Theorem nav_listener_released (others : list nat) (evs more : list Event) :
  let w := exec (evs ++ [Unmount]) (mount others) in
  window (mount others) = (others ++ [h (mount others)])%list
  /\ window w = others
  /\ mounted w = false
  /\ exec more w = w.
Proof.
  intros w.
  assert (Hw0 : wired others (mount others))
    by (split; [reflexivity | now rewrite window_mount]).
  pose proof (wired_exec others (evs ++ [Unmount]) _ Hw0) as [Hh Hw]. fold w in Hh, Hw.
  assert (Hm : mounted w = false).
  { subst w. rewrite exec_app. cbn [exec fold_left apply]. unfold unmount.
    destruct (mounted (exec evs (mount others))) eqn:E; [reflexivity | exact E]. }
  rewrite Hm in Hw.
  split; [apply window_mount|]. split; [exact Hw|]. split; [exact Hm|].
  assert (Hn : existsb (Nat.eqb (h w)) (window w) = false)
    by (rewrite Hh, Hw; apply fresh_new).
  induction more as [|ev more' IH]; [reflexivity|].
  cbn [exec fold_left]. fold (exec more' (apply ev w)).
  replace (apply ev w) with w; [exact IH|].
  destruct ev; cbn [apply]; rewrite ?Hn, ?Hm; try reflexivity.
  unfold unmount. now rewrite Hm.
Qed.

(** X10 - The mobile menu. Until the Nav is unmounted: a press on a menu
    link leaves the menu closed, a press on the hamburger flips it and two
    presses give back what was; scrolling never touches the menu, so a
    history without its scroll events ends with the same menu; and the
    menu buttons never touch the scroll flag. *)
Theorem nav_menu (others : list nat) (evs : list Event) (y : Q) :
  existsb is_unmount evs = false ->
  let w := exec evs (mount others) in
  menuOpen (mount others) = false
  /\ menuOpen (apply MenuLink w) = false
  /\ menuOpen (apply Hamburger w) = negb (menuOpen w)
  /\ apply Hamburger (apply Hamburger w) = w
  /\ menuOpen (apply (Scroll y) w) = menuOpen w
  /\ menuOpen (exec (filter (fun ev => negb (is_scroll ev)) evs) (mount others))
     = menuOpen w
  /\ scrolled (apply Hamburger w) = scrolled w
  /\ scrolled (apply MenuLink w) = scrolled w.
Proof.
  intros Hev w.
  destruct (listening_exec evs _ Hev (listening_mount others)) as [Hm Hl].
  fold w in Hm, Hl.
  split; [reflexivity|].
  split; [cbn [apply]; rewrite Hm; destruct (menuOpen w) eqn:E; cbn; rewrite ?Hm; auto|].
  split; [cbn [apply]; rewrite Hm; cbn; now rewrite Hm|].
  split.
  { cbn [apply]. rewrite Hm. cbn [setMenuOpen mounted menuOpen]. rewrite Hm.
    rewrite negb_involutive. destruct w; cbn in *. now subst. }
  split; [cbn [apply]; rewrite Hl; reflexivity|].
  split; [now apply menu_without_scroll|].
  split; [cbn [apply]; rewrite Hm; reflexivity|].
  cbn [apply]. rewrite Hm. now destruct (menuOpen w).
Qed.

Lemma nav_menu_witness :
  let w := exec [Hamburger; Scroll 100] (mount []) in
  menuOpen w = true /\ menuOpen (apply MenuLink w) = false.
Proof.
  destruct (nav_menu [] [Hamburger; Scroll 100] 0) as (_ & H & _).
  - reflexivity.
  - split; [reflexivity | exact H].
Defined.

(** X11 - Colours written next to the flag agree with the palette. In
    both themes the background of the scrolled bar is the page background
    [bg] of the palette, channel by channel, at alpha 0.92, the bar is
    transparent before; and the dots behind the Hero, which are chosen by
    [dark] and not taken from the palette, have the palette's accent
    colour with alpha [18]. *)
Theorem flag_colours_match_palette (dark : bool) :
  (exists r g b,
      Css.rgb_of_hex (Theme.bg (Theme.Nav_c dark)) = Some (r, g, b)
      /\ background true dark = Css.rgba r g b "0.92")
  /\ background false dark = "transparent"%string
  /\ HeroStyle.backgroundImage dark
     = ("radial-gradient(circle, " ++ Theme.accent (Theme.App_c dark)
          ++ "18 1px, transparent 1px)")%string.
Proof.
  destruct dark.
  - split; [exists 10, 10, 15; split; reflexivity|]. split; reflexivity.
  - split; [exists 245, 244, 239; split; reflexivity|]. split; reflexivity.
Qed.

End NavClaims.

(** ** ProjectCard, SkillBar, SEOMeta *)

Section CardClaims.

(** X12 - The accent of a project card. For every index [i] from 0 on,
    [colors[i % colors.length]] is one of the four colours, never
    undefined; it repeats with period four and two neighbouring cards
    never have the same accent. A negative index that is not a multiple of
    four has no accent: [%] gives a negative position. *)
Theorem project_accent (i j : Z) :
  0 <= i -> j < 0 -> Z.rem j 4 <> 0 ->
  (exists c, ProjectCard.accent i = Some c /\ In c ProjectCard.colors)
  /\ ProjectCard.accent (i + 4) = ProjectCard.accent i
  /\ ProjectCard.accent (i + 1) <> ProjectCard.accent i
  /\ ProjectCard.accent j = None.
Proof.
  intros Hi Hj Hr. unfold ProjectCard.accent, JS.rem.
  change (JS.alength ProjectCard.colors) with 4.
  rewrite !Z.rem_mod_nonneg by lia.
  replace ((i + 4) mod 4) with (i mod 4)
    by (rewrite <- (Z_mod_plus_full i 1 4); f_equal; lia).
  rewrite <- (Zplus_mod_idemp_l i 1 4).
  pose proof (Z.mod_pos_bound i 4 ltac:(lia)) as Hb.
  assert (Hc : i mod 4 = 0 \/ i mod 4 = 1 \/ i mod 4 = 2 \/ i mod 4 = 3) by lia.
  split; [|split; [reflexivity|split]].
  - destruct Hc as [-> | [-> | [-> | ->]]]; eexists; (split; [reflexivity|]);
      cbn; auto.
  - destruct Hc as [-> | [-> | [-> | ->]]]; discriminate.
  - assert (Hn : Z.rem j 4 <= 0).
    { rewrite <- (Z.opp_involutive j), Z.rem_opp_l by lia.
      pose proof (Z.rem_nonneg (- j) 4 ltac:(lia) ltac:(lia)). lia. }
    unfold JS.index. destruct (Z.rem j 4 <? 0) eqn:E; [reflexivity|].
    apply Z.ltb_ge in E. lia.
Qed.

Lemma project_accent_witness :
  ProjectCard.accent 5 = Some "#10b981"%string
  /\ ProjectCard.accent 6 <> ProjectCard.accent 5
  /\ ProjectCard.accent (-1) = None.
Proof.
  destruct (project_accent 5 (-1)) as (_ & _ & H1 & H2).
  - lia.
  - lia.
  - discriminate.
  - split; [reflexivity|]. split; [exact H1 | exact H2].
Defined.

(** X13 - The skill bar fills once. For a level and a delay that are
    safe integers and not negative: the bar of a watched row has width
    [0%] until one of the reports received before the unmount says the row
    intersects, and from then on its width is [level%] whatever follows;
    the width animates over [1.2s], that is 1200ms, after the delay the
    caller gives in milliseconds. *)
Theorem skillbar_fills_once
    (el : Reveal.Element) (l d : Z) (evs more : list Reveal.Event) :
  0 <= l <= JS.max_safe_integer ->
  0 <= d <= JS.max_safe_integer ->
  let w := Reveal.exec evs (Reveal.mount (Some el)) in
  SkillBar.width (SkillBar.render l d (Reveal.mount (Some el))) = "0%"%string
  /\ SkillBar.width (SkillBar.render l d w)
     = (if existsb Reveal.reports_intersection (Reveal.lifetime evs)
        then (JS.show l ++ "%")%string else "0%"%string)
  /\ (if Reveal.visible w
      then SkillBar.width (SkillBar.render l d (Reveal.exec more w))
           = (JS.show l ++ "%")%string
      else True)
  /\ SkillBar.transition (SkillBar.render l d w)
     = ("width " ++ "1.2s" ++ " " ++ (JS.show d ++ "ms")
          ++ " cubic-bezier(0.4,0,0.2,1)")%string
  /\ Reveal.css_time_ms "1.2s" = Some 1200
  /\ Reveal.css_time_ms (JS.show d ++ "ms") = Some d.
Proof.
  intros Hl Hd w. split; [reflexivity|].
  assert (Hv : Reveal.visible w
               = existsb Reveal.reports_intersection (Reveal.lifetime evs))
    by (now apply watched_exec).
  split; [unfold SkillBar.render, SkillBar.style; cbn [SkillBar.width]; now rewrite Hv|].
  split.
  { destruct (Reveal.visible w) eqn:E; [|exact I].
    unfold SkillBar.render, SkillBar.style. cbn [SkillBar.width].
    now rewrite (visible_stays_exec more w E). }
  split.
  { unfold SkillBar.render, SkillBar.style. cbn [SkillBar.transition append].
    do 6 f_equal. now rewrite append_assoc. }
  split; [reflexivity|].
  apply time_of_show. lia.
Qed.

Lemma skillbar_fills_once_witness :
  let e := {| Reveal.isIntersecting := true; Reveal.intersectionRatio := 1 |} in
  SkillBar.width
    (SkillBar.render 85 150
       (Reveal.exec [Reveal.Notify e []] (Reveal.mount (Some 1%nat))))
  = "85%"%string.
Proof.
  intros e.
  destruct (skillbar_fills_once 1%nat 85 150 [Reveal.Notify e []] [])
    as (_ & H & _).
  - unfold JS.max_safe_integer. lia.
  - unfold JS.max_safe_integer. lia.
  - etransitivity; [exact H | reflexivity].
Defined.

Lemma seo_fold (ms : list SEO.Meta) : forall d0,
  SEO.head (fold_left (fun d m => SEO.appendChild (SEO.element m) d) ms d0)
  = (SEO.head d0 ++ map SEO.element ms)%list
  /\ SEO.rest (fold_left (fun d m => SEO.appendChild (SEO.element m) d) ms d0)
     = SEO.rest d0.
Proof.
  induction ms as [|m ms IH]; intros d0; cbn [fold_left map].
  - now rewrite app_nil_r.
  - destruct (IH (SEO.appendChild (SEO.element m) d0)) as [-> ->].
    cbn. now rewrite <- app_assoc.
Qed.

Lemma seo_element_tag (m : SEO.Meta) : SEO.tag (SEO.element m) = "meta"%string.
Proof.
  unfold SEO.element.
  destruct (SEO.truthy (SEO.name m)), (SEO.truthy (SEO.property m)); reflexivity.
Qed.

Lemma seo_metas_no_title (ms : list SEO.Meta) :
  forallb (fun e => negb (SEO.is_title e)) (map SEO.element ms) = true.
Proof.
  induction ms as [|m ms IH]; [reflexivity|].
  cbn [map forallb]. rewrite IH. unfold SEO.is_title.
  now rewrite seo_element_tag.
Qed.

(** What [retitle] does to a list with a title, and that it finds one
    whenever there is one. *)
Lemma retitle_some (t : string) (l l' : list SEO.Element) :
  SEO.retitle t l = Some l' ->
  existsb SEO.is_title l = true
  /\ map SEO.shell l' = map SEO.shell l
  /\ filter (fun e => negb (SEO.is_title e)) l'
     = filter (fun e => negb (SEO.is_title e)) l
  /\ (forall r, option_map SEO.text (find SEO.is_title (l' ++ r)) = Some t).
Proof.
  revert l'. induction l as [|e l IH]; intros l' H; [discriminate|].
  cbn [SEO.retitle] in H. destruct (SEO.is_title e) eqn:E.
  - injection H as <-. cbn [existsb map filter app find].
    unfold SEO.is_title in *. cbn [SEO.tag SEO.shell SEO.attrs]. rewrite E.
    cbn. auto.
  - destruct (SEO.retitle t l) as [l0|]; [|discriminate].
    injection H as <-. destruct (IH l0 eq_refl) as (H1 & H2 & H3 & H4).
    cbn [existsb map filter app find]. rewrite E, H1, H2, H3. cbn.
    repeat split; auto.
Qed.

Lemma retitle_none (t : string) (l : list SEO.Element) :
  SEO.retitle t l = None -> existsb SEO.is_title l = false.
Proof.
  induction l as [|e l IH]; [reflexivity|].
  cbn [SEO.retitle existsb]. destruct (SEO.is_title e); [discriminate|].
  destruct (SEO.retitle t l); [discriminate|]. intros _. now apply IH.
Qed.

Lemma none_of {A : Type} (f : A -> bool) (l : list A) :
  forallb (fun x => negb (f x)) l = true -> existsb f l = false.
Proof.
  induction l as [|x l IH]; [reflexivity|].
  cbn [forallb existsb]. intros H. apply andb_true_iff in H.
  destruct H as [H1 H2]. apply negb_true_iff in H1. rewrite H1. now apply IH.
Qed.

Lemma find_skip {A : Type} (f : A -> bool) (l r : list A) :
  existsb f l = false -> find f (l ++ r) = find f r.
Proof.
  induction l as [|x l IH]; [reflexivity|].
  cbn. destruct (f x); [discriminate | exact IH].
Qed.

Lemma find_keep {A : Type} (f : A -> bool) (l m r : list A) :
  existsb f m = false -> find f ((l ++ m) ++ r) = find f (l ++ r).
Proof.
  intros Hm. induction l as [|x l IH]; cbn.
  - now apply find_skip.
  - now destruct (f x).
Qed.

Lemma retitle_same (t : string) (l r : list SEO.Element) :
  option_map SEO.text (find SEO.is_title (l ++ r)) = Some t ->
  existsb SEO.is_title l = true ->
  SEO.retitle t l = Some l.
Proof.
  induction l as [|e l IH]; [discriminate|].
  cbn [app find existsb SEO.retitle]. destruct (SEO.is_title e) eqn:E.
  - cbn. intros H _. injection H as <-. now destruct e.
  - cbn. intros H Hex. now rewrite (IH H Hex).
Qed.

Lemma set_title_text (t : string) (d : SEO.Document) :
  SEO.title_text (SEO.setTitle t d) = Some t.
Proof.
  unfold SEO.title_text, SEO.setTitle.
  destruct (SEO.retitle t (SEO.head d)) as [h'|] eqn:Eh.
  - cbn [SEO.head SEO.rest]. now apply (retitle_some t _ _ Eh).
  - pose proof (retitle_none _ _ Eh) as Hn.
    destruct (SEO.retitle t (SEO.rest d)) as [r'|] eqn:Er; cbn [SEO.head SEO.rest].
    + rewrite find_skip by exact Hn.
      destruct (retitle_some t _ _ Er) as (_ & _ & _ & H).
      specialize (H []). now rewrite app_nil_r in H.
    + rewrite <- app_assoc, find_skip by exact Hn. cbn. reflexivity.
Qed.

Lemma set_title_again (t : string) (d : SEO.Document) :
  SEO.title_text d = Some t -> SEO.setTitle t d = d.
Proof.
  unfold SEO.title_text, SEO.setTitle. intros H.
  destruct (existsb SEO.is_title (SEO.head d)) eqn:Ex.
  - rewrite (retitle_same t _ _ H Ex). now destruct d.
  - assert (Eh : SEO.retitle t (SEO.head d) = None).
    { destruct (SEO.retitle t (SEO.head d)) as [h'|] eqn:E; [|reflexivity].
      destruct (retitle_some t _ _ E) as (H1 & _). congruence. }
    rewrite Eh. rewrite find_skip in H by exact Ex.
    assert (Ex' : existsb SEO.is_title (SEO.rest d) = true).
    { destruct (existsb SEO.is_title (SEO.rest d)) eqn:E; [reflexivity|].
      rewrite <- (app_nil_r (SEO.rest d)), find_skip in H by exact E.
      discriminate. }
    rewrite <- (app_nil_r (SEO.rest d)) in H.
    rewrite (retitle_same t _ _ H Ex'). now destruct d.
Qed.

(** X14 - SEOMeta only appends. For any title and any list of entries on
    a document with a head: the document's [title] element has the given
    text afterwards, and one is created, as a child of the head, exactly
    when the document had none; the children the head had are there in
    their order with their tags and attributes, followed by one [meta]
    element per entry in the entries' order; and mounting again appends
    the same [meta] elements once more. Each element carries the entry's
    [content], its [name] exactly when the entry has one that is not the
    empty string, and its [property] likewise. *)
Theorem seo_meta_appends (t : string) (metas : list SEO.Meta) (d : SEO.Document) :
  let d' := SEO.effect t metas d in
  SEO.title_text d' = Some t
  /\ SEO.head d' = (SEO.head (SEO.setTitle t d) ++ map SEO.element metas)%list
  /\ map SEO.shell (SEO.head (SEO.setTitle t d))
     = (map SEO.shell (SEO.head d)
          ++ (if existsb SEO.is_title (SEO.head d ++ SEO.rest d) then []
              else [("title"%string, [])]))%list
  /\ filter (fun e => negb (SEO.is_title e)) (SEO.head d')
     = (filter (fun e => negb (SEO.is_title e)) (SEO.head d)
          ++ map SEO.element metas)%list
  /\ SEO.head (SEO.effect t metas d') = (SEO.head d' ++ map SEO.element metas)%list
  /\ Forall (fun m =>
               SEO.tag (SEO.element m) = "meta"%string
               /\ SEO.getAttribute "content" (SEO.attrs (SEO.element m))
                  = Some (SEO.content m)
               /\ SEO.getAttribute "name" (SEO.attrs (SEO.element m))
                  = match SEO.name m with
                    | Some s => if String.eqb s "" then None else Some s
                    | None => None
                    end
               /\ SEO.getAttribute "property" (SEO.attrs (SEO.element m))
                  = match SEO.property m with
                    | Some s => if String.eqb s "" then None else Some s
                    | None => None
                    end)
            metas.
Proof.
  intros d'.
  assert (Hh : forall d0, SEO.head (SEO.effect t metas d0)
                          = (SEO.head (SEO.setTitle t d0) ++ map SEO.element metas)%list)
    by (intros d0; unfold SEO.effect; now destruct (seo_fold metas (SEO.setTitle t d0))).
  assert (Hr : SEO.rest d' = SEO.rest (SEO.setTitle t d))
    by (unfold d', SEO.effect; now destruct (seo_fold metas (SEO.setTitle t d))).
  assert (Hm : existsb SEO.is_title (map SEO.element metas) = false)
    by (apply none_of, seo_metas_no_title).
  assert (Ht : SEO.title_text d' = Some t).
  { unfold SEO.title_text. rewrite Hr. unfold d'. rewrite Hh.
    rewrite find_keep by exact Hm. apply set_title_text. }
  split; [exact Ht|]. split; [apply Hh|]. split; [|split; [|split]].
  - unfold SEO.setTitle. rewrite existsb_app.
    destruct (SEO.retitle t (SEO.head d)) as [h'|] eqn:Eh.
    + destruct (retitle_some t _ _ Eh) as (H1 & H2 & _).
      cbn [SEO.head]. rewrite H1, H2. cbn. now rewrite app_nil_r.
    + rewrite (retitle_none _ _ Eh). cbn [orb].
      destruct (SEO.retitle t (SEO.rest d)) as [r'|] eqn:Er; cbn [SEO.head].
      * destruct (retitle_some t _ _ Er) as (H1 & _). rewrite H1.
        now rewrite app_nil_r.
      * rewrite (retitle_none _ _ Er). now rewrite map_app.
  - unfold d'. rewrite Hh, filter_app.
    rewrite (forallb_filter_id _ _ (seo_metas_no_title metas)). f_equal.
    unfold SEO.setTitle.
    destruct (SEO.retitle t (SEO.head d)) as [h'|] eqn:Eh.
    + now destruct (retitle_some t _ _ Eh) as (_ & _ & H3 & _).
    + destruct (SEO.retitle t (SEO.rest d)); cbn [SEO.head]; [reflexivity|].
      rewrite filter_app. cbn. now rewrite app_nil_r.
  - rewrite Hh. now rewrite (set_title_again t d' Ht).
  - apply Forall_forall. intros [[n|] [p|] c] _; unfold SEO.element, SEO.truthy;
      cbn [SEO.name SEO.property SEO.content SEO.str];
      repeat match goal with
             | |- context [String.eqb ?s ""] => destruct (String.eqb s "")
             end; cbn; auto.
Qed.

End CardClaims.

(** ** The contact form and the theme, further *)

Section FormClaims.
Import Contact.

(** X15 - Typing into the form. A change of one field leaves the other
    two fields, the [sent] flag, the timers and the outside world as they
    are; changes of two different fields can be made in either order, and
    of two changes of the same field the later one counts. The callback
    of the 4000ms timer keeps what has been typed since the submit. *)
Theorem contact_fields_independent (f g : Field) (v v' : string) (w : World) :
  f <> g ->
  onChange f v (onChange g v' w) = onChange g v' (onChange f v w)
  /\ onChange f v (onChange f v' w) = onChange f v w
  /\ sent (onChange f v w) = sent w
  /\ host (onChange f v w) = host w
  /\ io (onChange f v w) = io w
  /\ form (fire Unsent (onChange f v (snd (handleSubmit {| defaultPrevented := false |} w))))
     = form (onChange f v {| form := blank; sent := sent w; host := host w; io := io w |})
  /\ match g with
     | FName => name (form (onChange f v w)) = name (form w)
     | FEmail => email (form (onChange f v w)) = email (form w)
     | FMessage => message (form (onChange f v w)) = message (form w)
     end.
Proof.
  intros Hne. destruct f, g; try congruence; repeat split.
Qed.

Lemma contact_fields_independent_witness :
  let w := {| form := blank; sent := false; host := Timers.empty; io := [] |} in
  form (onChange FName "Jane" (onChange FEmail "j@x.org" w))
  = {| name := "Jane"; email := "j@x.org"; message := "" |}.
Proof.
  intros w.
  destruct (contact_fields_independent FName FEmail "Jane" "j@x.org" w) as [H _].
  - discriminate.
  - rewrite H. reflexivity.
Defined.

(** X16 - Submitting again. When the form, with no timer pending, is
    submitted, and [d] milliseconds later, before the first timer is due,
    submitted again, the first timer still fires 4000ms after the first
    submit: the [sent] flag is false again [4000 - d] milliseconds after
    the second submit. The second timer fires [d] milliseconds later and
    changes nothing. *)
Theorem contact_resubmit (w : World) (d : Z) :
  Timers.pending (host w) = [] ->
  0 <= d < 4000 ->
  let w2 := submit (ContactClock.elapse d (submit w)) in
  sent w2 = true
  /\ exists w3 w4,
      step w2 = Some w3
      /\ sent w3 = false
      /\ Timers.now (host w3) = Timers.now (host w2) + (4000 - d)
      /\ List.length (Timers.pending (host w3)) = 1%nat
      /\ step w3 = Some w4
      /\ Timers.now (host w4) = Timers.now (host w2) + 4000
      /\ sent w4 = false
      /\ form w4 = form w3
      /\ Timers.pending (host w4) = [].
Proof.
  intros Hp Hd w2. subst w2.
  destruct w as [f s [t nx p] o]. cbn in Hp. subst p.
  split; [reflexivity|].
  unfold submit, handleSubmit, ContactClock.elapse, step, Timers.pop.
  cbn -[Z.add Z.sub Z.max Z.ltb Nat.eqb].
  replace (t + d + 4000 <? t + 4000) with false
    by (symmetry; apply Z.ltb_ge; lia).
  cbn -[Z.add Z.sub Z.max Z.ltb Nat.eqb].
  rewrite Nat.eqb_refl.
  replace (Nat.eqb (S nx) nx) with false
    by (symmetry; apply Nat.eqb_neq; lia).
  cbn -[Z.add Z.sub Z.max Z.ltb Nat.eqb].
  do 2 eexists. split; [reflexivity|].
  cbn -[Z.add Z.sub Z.max Z.ltb Nat.eqb]. rewrite Nat.eqb_refl.
  cbn -[Z.add Z.sub Z.max Z.ltb Nat.eqb].
  repeat split; try reflexivity; cbn [Timers.now host setSent]; lia.
Qed.

Lemma contact_resubmit_witness :
  let w := {| form := blank; sent := false; host := Timers.empty; io := [] |} in
  exists w3,
    step (submit (ContactClock.elapse 3000 (submit w))) = Some w3
    /\ sent w3 = false
    /\ Timers.now (host w3) = 4000.
Proof.
  intros w.
  destruct (contact_resubmit w 3000) as (_ & w3 & w4 & H1 & H2 & H3 & _).
  - reflexivity.
  - lia.
  - exists w3. split; [exact H1|]. split; [exact H2|]. rewrite H3. reflexivity.
Defined.

(** X17 - The theme after any number of toggles. Starting from the initial
    flag, the theme is dark after an even number of presses of the toggle
    and light after an odd number, and the palette follows. *)
Theorem theme_after_toggles (n : nat) :
  Nat.iter n Theme.toggle Theme.initial = Nat.even n
  /\ Theme.App_c (Nat.iter n Theme.toggle Theme.initial)
     = (if Nat.even n then Theme.T_dark else Theme.T_light).
Proof.
  assert (H : Nat.iter n Theme.toggle Theme.initial = Nat.even n).
  { induction n as [|n IH]; [reflexivity|].
    cbn [Nat.iter nat_rect]. change (Nat.iter n Theme.toggle Theme.initial)
      with (nat_rect (fun _ => bool) Theme.initial (fun _ => Theme.toggle) n) in IH.
    rewrite IH, Nat.even_succ, <- Nat.negb_even. reflexivity. }
  split; [exact H|]. now rewrite H.
Qed.

End FormClaims.
